(** * Agnost client library: a shallow embedding and its properties

  The development follows the TypeScript sources of the client:
  - [AgnostClient] (constructor, option merging, lazily created managers),
  - [StorageManager] and [BucketManager] (bucket access and file upload),
  - the interfaces of [types.ts] ([APIError], [ErrorEntry], [EventData]).

  The realtime manager class itself is not among the sources; the module
  [Realtime] below is written from the design document. *)

From Stdlib Require Import ZArith String Ascii List Bool Lia.
From stdpp Require Import base gmap sets list strings.

Set Warnings "-register-all,-clear-no-such-hyp".

Local Open Scope Z_scope.

(** ** JavaScript values *)

Module JS.

(** Run-time values. Numbers are the integral ones (every number the
    sources mention is an integer); functions are opaque and named by an
    index; objects list their own enumerable properties in insertion
    order. *)
Inductive value : Type :=
| VUndefined
| VNull
| VBool (b : bool)
| VNum (n : Z)
| VStr (s : string)
| VFun (f : nat)
| VArr (items : list value)
| VObj (fields : list (string * value)).

(** The [typeof] operator. *)
Definition typeof (v : value) : string :=
  match v with
  | VUndefined => "undefined"
  | VNull => "object"
  | VBool _ => "boolean"
  | VNum _ => "number"
  | VStr _ => "string"
  | VFun _ => "function"
  | VArr _ => "object"
  | VObj _ => "object"
  end.

(** [ToBoolean], as used by [!x] and [if (x)]. *)
Definition truthy (v : value) : bool :=
  match v with
  | VUndefined | VNull => false
  | VBool b => b
  | VNum n => negb (n =? 0)
  | VStr s => negb (String.eqb s "")
  | VFun _ | VArr _ | VObj _ => true
  end.

(** Property read [o.name] on an object value. *)
Fixpoint assoc (name : string) (fields : list (string * value)) : option value :=
  match fields with
  | [] => None
  | (k, v) :: rest => if String.eqb k name then Some v else assoc name rest
  end.


(** White space and line terminators among the code units below 256
    (strings are sequences of such code units here): TAB, LF, VT, FF, CR,
    SPACE and NBSP. *)
Definition is_white_space (a : ascii) : bool :=
  let n := nat_of_ascii a in
  ((9 <=? n) && (n <=? 13) || (n =? 32) || (n =? 160))%nat.

Fixpoint trimStart (s : string) : string :=
  match s with
  | EmptyString => EmptyString
  | String a rest => if is_white_space a then trimStart rest else s
  end.

Definition trimEnd (s : string) : string :=
  String.rev (trimStart (String.rev s)).

(** [String.prototype.trim]. *)
Definition trim (s : string) : string := trimEnd (trimStart s).

(** [s.startsWith(p)]. *)
Definition startsWith (s p : string) : bool := String.prefix p s.

(** Exceptions raised by the library ([ClientError] carries a short code
    and a message) or by the run time. *)
Inductive exn : Type :=
| ClientError (code message : string)
| TypeError (message : string).

Inductive outcome (A : Type) : Type :=
| Throw (e : exn)
| Return (a : A).
Arguments Throw {A} e.
Arguments Return {A} a.

#[global] Instance outcome_ret : MRet outcome := fun A a => Return a.

(** Sequencing: an exception aborts what follows ([x ← m; k]). *)
#[global] Instance outcome_bind : MBind outcome := fun A B k m =>
  match m with
  | Throw e => Throw e
  | Return a => k a
  end.

End JS.

Import JS.

(** ** Interfaces of [types.ts] as predicates on values *)

Module Types.











(** [interface EventData { channel: string | null; message: any }], the
    argument of a [ListenerFunction]. *)
Record EventData : Type := mkEventData {
  ed_channel : option string;
  ed_message : value
}.












(** [interface MemberData { id: string; data: any }] *)
Definition MemberData_value (id : string) (data : value) : value :=
  VObj [("id", VStr id); ("data", data)].

End Types.

(** ** The client, its managers and the objects they live in *)

Module Client.

(** Object spread [{ ...a, ...b }]: the keys of [b] win. *)
Definition spread (a b : gmap string value) : gmap string value := b ∪ a.

(** [ClientOptions] as passed by the caller; [None] is an absent key.
    [co_realtime] is what [...options?.realtime] spreads: an absent,
    [undefined] or [null] member spreads nothing and is [None]. *)
Record ClientOptions : Type := {
  co_localStorage : option value;
  co_signInRedirect : option value;
  co_realtime : option (gmap string value)
}.

(** The merged [settings] of a client. *)
Record ClientSettings : Type := {
  st_signInRedirect : value;
  st_localStorage : value;
  st_realtime : gmap string value
}.

(** [DEFAULT_OPTIONS.realtime] *)
Definition DEFAULT_REALTIME : gmap string value :=
  <["autoJoinChannels" := VBool true]>
  (<["echoMessages" := VBool true]>
  (<["reconnectionDelay" := VNum 1000]>
  (<["timeout" := VNum 20000]>
  (<["bufferMessages" := VBool true]> ∅)))).

(** [DEFAULT_FILE_OPTIONS] of the bucket manager. *)
Definition DEFAULT_FILE_OPTIONS : gmap string value :=
  <["upsert" := VBool false]> ∅.

(** Objects are allocated in a heap and named by their address, so that two
    references can be compared for identity. The classes [Fetcher],
    [AuthManager], [EndpointManager] and [RealtimeManager] are not among the
    sources: an object of such a class only records what it was constructed
    with and, for a fetcher, the session last handed to [setSession]. *)
Definition loc : Type := nat.

Inductive object : Type :=
| FetcherObj (baseUrl : string) (headers : gmap string value) (session : value)
| AuthManagerObj (fetcher : loc) (settings : ClientSettings)
| EndpointManagerObj (fetcher : loc)
| StorageManagerObj (storageName : string) (fetcher : loc)
| BucketManagerObj (storageName bucketName : string) (fetcher : loc)
| RealtimeManagerObj (fetcher : loc) (settings : ClientSettings).

Definition heap : Type := list object.

(** [new C(...)]: the object gets the next free address. *)
Definition alloc (o : object) (h : heap) : loc * heap := (length h, h ++ [o]).

(** The private fields of an [AgnostClient]; [None] is [null]. *)
Record AgnostClient : Type := mkClient {
  settings : ClientSettings;
  fetcher : loc;
  authManager : option loc;
  epManager : option loc;
  storageManager : option loc;
  realtimeManager : option loc
}.

(** What the sources import from outside the files at hand: the helpers
    [checkRequired] (it returns normally, [None], or throws) and
    [normalizeUrl] (it is handed [baseUrl] as it came), the browser's
    [window.localStorage] if any, and the session that
    [AuthManager.getSession] reads back. With them comes what calling a
    function value does, [call f this args]: functions are opaque, and a
    call returns a value or throws, the same at every call. *)
Class Helpers : Type := {
  checkRequired : string -> value -> option exn;
  normalizeUrl : value -> string;
  window_localStorage : value;
  getSession : ClientSettings -> value;
  call : nat -> value -> list value -> outcome value
}.

(** Which browser globals exist ([typeof X !== "undefined"]). *)
Record Globals : Type := {
  has_FormData : bool;
  has_Blob : bool;
  has_File : bool;
  has_XMLHttpRequest : bool
}.

(** The [fileBody] argument of [upload], by its class ([File] extends
    [Blob]). *)
Inductive UploadBody : Type :=
| FormDataBody
| BlobBody
| FileBody
| OtherBody (v : value).

Definition instanceof_FormData (b : UploadBody) : bool :=
  match b with FormDataBody => true | _ => false end.
Definition instanceof_Blob (b : UploadBody) : bool :=
  match b with BlobBody | FileBody => true | _ => false end.
Definition instanceof_File (b : UploadBody) : bool :=
  match b with FileBody => true | _ => false end.

(** The query object [{ fileName, options }] sent along with an upload. *)
Record UploadQuery : Type := {
  fileName : string;
  options : gmap string value
}.

(** The class [Fetcher] is not among the sources. These are its two
    requests that [upload] relies on, taken as they come: each resolves to
    some value or is rejected (a [Throw]), and nothing is assumed about the
    value. *)
Class FetcherOps : Type := {
  fetcher_post :
    loc -> string -> UploadBody -> UploadQuery -> heap -> outcome value;
  fetcher_upload :
    loc -> string -> UploadBody -> UploadQuery -> value -> value -> heap ->
    outcome value
}.

Section WithHelpers.
Context `{Helpers}.

(** The settings: [{ ...DEFAULT_OPTIONS, ...options }], then
    [settings.realtime = { ...DEFAULT_OPTIONS.realtime, ...options?.realtime }]. *)
Definition merge_settings (opts : option ClientOptions) : ClientSettings :=
  {| st_signInRedirect := default VUndefined (opts ≫= co_signInRedirect);
     st_localStorage := default window_localStorage (opts ≫= co_localStorage);
     st_realtime := spread DEFAULT_REALTIME (default ∅ (opts ≫= co_realtime)) |}.

(** The first test of the constructor on a string,
    [baseUrl.trim().startsWith("https://") || baseUrl.trim().startsWith("http://")]. *)
Definition valid_baseUrl (url : string) : bool :=
  startsWith (trim url) "https://" || startsWith (trim url) "http://".

(** The method call [v.name(args)]: a string has the two methods that the
    constructor calls; an object has the methods among its properties; any
    other value, and an object without a function under that name, has no
    such method. *)
Definition call_method (v : value) (name : string) (args : list value)
  : outcome value :=
  let no_method := Throw (TypeError (name +:+ " is not a function")) in
  match v with
  | VStr s =>
      if String.eqb name "trim" then Return (VStr (trim s))
      else if String.eqb name "startsWith" then
        match args with
        | VStr p :: _ => Return (VBool (startsWith s p))
        | _ => no_method
        end
      else no_method
  | VObj fields =>
      match assoc name fields with
      | Some (VFun f) => call f v args
      | _ => no_method
      end
  | _ => no_method
  end.

(** [baseUrl.trim().startsWith(prefix)], as a truth value. *)
Definition trimmed_startsWith (baseUrl : value) (prefix : string)
  : outcome bool :=
  t ← call_method baseUrl "trim" [];
  r ← call_method t "startsWith" [VStr prefix];
  Return (truthy r).

(** The condition of the constructor's first [if],
    [!baseUrl || !(baseUrl.trim().startsWith("https://") ||
    baseUrl.trim().startsWith("http://"))]; the second test runs only when
    the first one fails. *)
Definition baseUrl_rejected (baseUrl : value) : outcome bool :=
  if negb (truthy baseUrl) then Return true
  else
    https ← trimmed_startsWith baseUrl "https://";
    if (https : bool) then Return false
    else
      http ← trimmed_startsWith baseUrl "http://";
      Return (negb http).

Definition check_baseUrl (baseUrl : value) : outcome unit :=
  rejected ← baseUrl_rejected baseUrl;
  if (rejected : bool)
  then Throw (ClientError "missing_required_value"
                "baseUrl is a required parameter and needs to start with http(s)://")
  else Return tt.

Definition check_apiKey (apiKey : value) : outcome unit :=
  match checkRequired "apiKey" apiKey with
  | Some e => Throw e
  | None =>
      if negb (String.eqb (typeof apiKey) "string")
      then Throw (ClientError "invalid_client_key"
                    "apiKey needs to be a valid key string")
      else Return tt
  end.

(** [get auth()] *)
Definition auth (c : AgnostClient) (h : heap) : loc * AgnostClient * heap :=
  match authManager c with
  | Some m => (m, c, h)
  | None =>
      let '(m, h') := alloc (AuthManagerObj (fetcher c) (settings c)) h in
      (m, mkClient (settings c) (fetcher c) (Some m) (epManager c)
            (storageManager c) (realtimeManager c), h')
  end.

(** [get endpoint()] *)
Definition endpoint (c : AgnostClient) (h : heap) : loc * AgnostClient * heap :=
  match epManager c with
  | Some m => (m, c, h)
  | None =>
      let '(m, h') := alloc (EndpointManagerObj (fetcher c)) h in
      (m, mkClient (settings c) (fetcher c) (authManager c) (Some m)
            (storageManager c) (realtimeManager c), h')
  end.

(** [storage(storageName)] *)
Definition storage (storageName : string) (c : AgnostClient) (h : heap)
  : loc * AgnostClient * heap :=
  match storageManager c with
  | Some m => (m, c, h)
  | None =>
      let '(m, h') := alloc (StorageManagerObj storageName (fetcher c)) h in
      (m, mkClient (settings c) (fetcher c) (authManager c) (epManager c)
            (Some m) (realtimeManager c), h')
  end.

(** [get realtime()] *)
Definition realtime (c : AgnostClient) (h : heap) : loc * AgnostClient * heap :=
  match realtimeManager c with
  | Some m => (m, c, h)
  | None =>
      let '(m, h') := alloc (RealtimeManagerObj (fetcher c) (settings c)) h in
      (m, mkClient (settings c) (fetcher c) (authManager c) (epManager c)
            (storageManager c) (Some m), h')
  end.

(** Modelled from the spec: [Fetcher.setSession] is not among the sources
    and the spec leaves the HTTP client to an outside collaborator; the call
    [fetcher.setSession(session)] is recorded in the fetcher object, and
    nothing else is assumed of it. *)
Definition setSession (f : loc) (session : value) (h : heap) : heap :=
  match h !! f with
  | Some (FetcherObj url headers _) => <[f := FetcherObj url headers session]> h
  | _ => h
  end.

(** [new AgnostClient(baseUrl, apiKey, options)] *)
Definition new_AgnostClient (baseUrl apiKey : value)
    (opts : option ClientOptions) (h : heap) : outcome (AgnostClient * heap) :=
  _ ← check_baseUrl baseUrl;
  _ ← check_apiKey apiKey;
  let st := merge_settings opts in
  let headers : gmap string value :=
    <["Authorization" := apiKey]> (<["X-Client" := VStr "agnost-js"]> ∅) in
  let '(f, h1) :=
    alloc (FetcherObj (normalizeUrl baseUrl) headers VUndefined) h in
  let '(_, c, h2) := auth (mkClient st f None None None None) h1 in
  let session := getSession (settings c) in
  Return (c, setSession f session h2).

(** [createClient] of [index.ts] *)
Definition createClient := new_AgnostClient.

End WithHelpers.

(** The four managers of a client, and the private field of each. *)
Inductive manager : Type :=
| AuthK
| EndpointK
| StorageK
| RealtimeK.

Definition field (k : manager) (c : AgnostClient) : option loc :=
  match k with
  | AuthK => authManager c
  | EndpointK => epManager c
  | StorageK => storageManager c
  | RealtimeK => realtimeManager c
  end.

Definition manager_eqb (k k' : manager) : bool :=
  match k, k' with
  | AuthK, AuthK | EndpointK, EndpointK
  | StorageK, StorageK | RealtimeK, RealtimeK => true
  | _, _ => false
  end.

Definition is_manager (k : manager) (o : object) : bool :=
  match o, k with
  | AuthManagerObj _ _, AuthK => true
  | EndpointManagerObj _, EndpointK => true
  | StorageManagerObj _ _, StorageK => true
  | RealtimeManagerObj _ _, RealtimeK => true
  | _, _ => false
  end.

(** How many managers of kind [k] a stretch of the heap holds. *)
Fixpoint count_managers (k : manager) (l : list object) : nat :=
  match l with
  | [] => 0%nat
  | o :: rest =>
      ((if is_manager k o then 1 else 0) + count_managers k rest)%nat
  end.

(** One access through the public surface of a client: [c.auth],
    [c.endpoint], [c.storage(name)] or [c.realtime]. *)
Inductive access : Type :=
| Auth
| Endpoint
| Storage (storageName : string)
| RealtimeAccess.

Definition kind (a : access) : manager :=
  match a with
  | Auth => AuthK
  | Endpoint => EndpointK
  | Storage _ => StorageK
  | RealtimeAccess => RealtimeK
  end.

Definition get (a : access) (c : AgnostClient) (h : heap)
  : loc * AgnostClient * heap :=
  match a with
  | Auth => auth c h
  | Endpoint => endpoint c h
  | Storage name => storage name c h
  | RealtimeAccess => realtime c h
  end.

(** Has a manager of kind [k] been asked for among the accesses? *)
Definition accessed (k : manager) (l : list access) : bool :=
  existsb (fun a => manager_eqb (kind a) k) l.

(** A sequence of accesses, with the manager each one returned. *)
Fixpoint accesses (l : list access) (c : AgnostClient) (h : heap)
  : list (access * loc) * AgnostClient * heap :=
  match l with
  | [] => ([], c, h)
  | a :: rest =>
      let '(m, c1, h1) := get a c h in
      let '(rs, c2, h2) := accesses rest c1 h1 in
      ((a, m) :: rs, c2, h2)
  end.

(** [StorageManager.bucket(name)]; [None] when [m] is not a storage
    manager. *)
Definition bucket (m : loc) (name : string) (h : heap) : option (loc * heap) :=
  match h !! m with
  | Some (StorageManagerObj storageName f) =>
      Some (alloc (BucketManagerObj storageName name f) h)
  | _ => None
  end.

(** The path that [upload] posts to. *)
Definition upload_path (storageName bucketName : string) : string :=
  "/storage/" +:+ storageName +:+ "/bucket/" +:+ bucketName +:+ "/upload-formdata".

Section WithFetcher.
Context `{FetcherOps}.

(** [BucketManager.upload(fileName, fileBody, options)]; [None] when [b] is
    not a bucket manager. *)
Definition upload (g : Globals) (b : loc) (name : string) (body : UploadBody)
    (opts : option (gmap string value)) (h : heap) : option (outcome value) :=
  match h !! b with
  | Some (BucketManagerObj storageName bucketName f) =>
      Some
        (if has_FormData g && instanceof_FormData body
            || has_Blob g && instanceof_Blob body
            || has_File g && instanceof_File body
         then
           let given := default ∅ opts in
           let onProgress := default VUndefined (given !! "onProgress") in
           let query :=
             {| fileName := name;
                options := <["onProgress" := VUndefined]>
                             (spread DEFAULT_FILE_OPTIONS given) |} in
           if has_XMLHttpRequest g && truthy onProgress
           then fetcher_upload f (upload_path storageName bucketName) body
                  query VNull onProgress h
           else fetcher_post f (upload_path storageName bucketName) body query h
         else Throw (ClientError "unsupported_file_format"
                       "You can only upload FormData, Blog or File objects through the Agnost client library"))
  | _ => None
  end.

End WithFetcher.

End Client.

(** ** The realtime channel client *)

Module Realtime.
Import Types.

(** Modelled from the spec: the class [RealtimeManager] is not among the
    sources. These are the lifecycle states of the connection controller
    (design section 4.1). *)
Inductive conn_state : Type :=
| Disconnected
| Connecting
| Connected
| Reconnecting
| Closed.

(** Modelled from the spec: the envelope of the data model,
    [{ channel, event, payload, originId }]; [channel = None] is a
    broadcast. The wire format of the missing [RealtimeManager] is unknown. *)
Record Envelope : Type := mkEnvelope {
  channel : option string;
  event : string;
  payload : value;
  originId : string
}.

(** Modelled from the spec: the recognised options of the missing
    [RealtimeManager] (configuration surface, section 6). *)
Record options : Type := {
  autoJoinChannels : bool;
  echoMessages : bool;
  reconnectionDelay : Z;
  timeout : Z;
  bufferMessages : bool
}.

(** Modelled from the spec: the error taxonomy of section 7, which the
    missing [RealtimeManager] would raise. *)
Inductive condition : Type :=
| session_required
| not_connected
| session_expired
| connection_timeout
| transport_error
| listener_error.

(** Modelled from the spec: frames handed to the transport by the missing
    [RealtimeManager]. *)
Inductive frame : Type :=
| JoinFrame (name : string)
| LeaveFrame (name : string)
| SendFrame (e : Envelope).

(** Modelled from the spec: the presence notifications [member-joined],
    [member-left] and [member-updated] of section 4.2 (the dispatch code of
    [RealtimeManager] is missing). *)
Inductive presence_kind : Type :=
| MemberJoined
| MemberLeft
| MemberUpdated.

(** Modelled from the spec: the registration a callback was reached through,
    [on(eventName, _)] or one of [onJoin], [onLeave], [onUpdate] (listener
    registry of the missing [RealtimeManager], section 4.4). *)
Inductive registration : Type :=
| Custom (eventName : string)
| System (k : presence_kind).

(** Modelled from the spec: a registered callback of the missing
    [RealtimeManager]; it is a [ListenerFunction] of [types.ts], taking an
    [EventData], and [cb_run] tells whether it returns ([true]) or throws. *)
Record callback : Type := {
  cb_id : nat;
  cb_run : EventData -> bool
}.

(** Modelled from the spec: the listener registry of the missing
    [RealtimeManager]; every list is in registration order. *)
Record Listeners : Type := mkListeners {
  custom : list (string * callback);
  joinListeners : list callback;
  leaveListeners : list callback;
  updateListeners : list callback
}.

(** Modelled from the spec: the state of the missing [RealtimeManager]:
    connection (state, identifier, pending reconnect timer), channel
    membership, presence entries per channel, outbound buffer, listeners and
    options (data model, section 3). *)
Record state : Type := mkState {
  conn : conn_state;
  connId : option string;
  timerPending : bool;
  membership : gset string;
  presence : gmap string (gmap string value);
  buffer : list Envelope;
  registry : Listeners;
  opts : options
}.

(** Modelled from the spec: what an operation of the missing
    [RealtimeManager] does to the outside: frames transmitted, callbacks
    invoked, a synchronous failure, a condition reported to the error
    listener or the log, and the handling of transport and timer. *)
Inductive effect : Type :=
| Transmit (f : frame)
| Invoke (r : registration) (cb : nat) (d : EventData)
| Fail (c : condition)
| Report (c : condition)
| OpenTransport (timeoutMs : Z)
| CloseTransport
| Schedule (delayMs : Z)
| CancelTimer.

(** Modelled from the spec: what can happen to the missing
    [RealtimeManager]: a call of its public surface, or an event of the
    transport, the timer or the session provider. [connect] carries the
    verdict of the session gate. *)
Inductive input : Type :=
| Join (name : string)
| Leave (name : string)
| Send (ch : option string) (ev : string) (p : value)
| Update (p : value)
| On (eventName : string) (cb : callback)
| OnJoin (cb : callback)
| OnLeave (cb : callback)
| OnUpdate (cb : callback)
| Connect (gate : bool)
| Disconnect
| Opened (id : string)
| Failed
| TimedOut
| Dropped
| TimerFired
| SessionInvalidated
| Inbound (e : Envelope).

(** Modelled from the spec: the state of the missing [RealtimeManager] on
    first realtime access: disconnected, nothing joined, nothing buffered. *)
Definition init (o : options) : state :=
  mkState Disconnected None false ∅ ∅ [] (mkListeners [] [] [] []) o.

(** Modelled from the spec: assignment to one field of the state of the
    missing [RealtimeManager]. *)
Definition set_conn (c : conn_state) (s : state) : state :=
  mkState c (connId s) (timerPending s) (membership s) (presence s)
    (buffer s) (registry s) (opts s).

(** Modelled from the spec: assignment to one field of the state of the
    missing [RealtimeManager]. *)
Definition set_connId (i : option string) (s : state) : state :=
  mkState (conn s) i (timerPending s) (membership s) (presence s)
    (buffer s) (registry s) (opts s).

(** Modelled from the spec: assignment to one field of the state of the
    missing [RealtimeManager]. *)
Definition set_timerPending (b : bool) (s : state) : state :=
  mkState (conn s) (connId s) b (membership s) (presence s)
    (buffer s) (registry s) (opts s).

(** Modelled from the spec: assignment to one field of the state of the
    missing [RealtimeManager]. *)
Definition set_membership (m : gset string) (s : state) : state :=
  mkState (conn s) (connId s) (timerPending s) m (presence s)
    (buffer s) (registry s) (opts s).

(** Modelled from the spec: assignment to one field of the state of the
    missing [RealtimeManager]. *)
Definition set_presence (p : gmap string (gmap string value)) (s : state) : state :=
  mkState (conn s) (connId s) (timerPending s) (membership s) p
    (buffer s) (registry s) (opts s).

(** Modelled from the spec: assignment to one field of the state of the
    missing [RealtimeManager]. *)
Definition set_buffer (b : list Envelope) (s : state) : state :=
  mkState (conn s) (connId s) (timerPending s) (membership s) (presence s)
    b (registry s) (opts s).

(** Modelled from the spec: assignment to one field of the state of the
    missing [RealtimeManager]. *)
Definition set_registry (r : Listeners) (s : state) : state :=
  mkState (conn s) (connId s) (timerPending s) (membership s) (presence s)
    (buffer s) r (opts s).

(** Modelled from the spec: the test [state = Connected] of the missing
    [RealtimeManager]; only then is the connection usable. *)
Definition is_connected (s : state) : bool :=
  match conn s with Connected => true | _ => false end.

(** Modelled from the spec: whether the missing [RealtimeManager] has been
    closed for good by [disconnect()] (section 4.1: [Closed] is terminal). *)
Definition is_closed (s : state) : bool :=
  match conn s with Closed => true | _ => false end.

(** Modelled from the spec: [join(name)] of the missing [RealtimeManager].
    Once the state is [Closed] the call fails and nothing is recorded
    (section 8: after [disconnect()] any [join] fails, no silent queuing);
    the error taxonomy has no condition of its own for this, and the call
    fails with [not_connected]. In every other state (section 4.2) the name
    enters the membership, already present or not, and a join frame goes out
    when connected. *)
Definition join (name : string) (s : state) : state * list effect :=
  if is_closed s then (s, [Fail not_connected])
  else
    (set_membership ({[name]} ∪ membership s) s,
     if is_connected s then [Transmit (JoinFrame name)] else []).

(** Modelled from the spec: [leave(name)] of the missing [RealtimeManager]
    (section 4.2): nothing happens for a channel that is not joined;
    otherwise the name leaves the membership and a leave frame goes out when
    connected. *)
Definition leave (name : string) (s : state) : state * list effect :=
  if decide (name ∈ membership s)
  then (set_membership (membership s ∖ {[name]}) s,
        if is_connected s then [Transmit (LeaveFrame name)] else [])
  else (s, []).

(** Modelled from the spec: the envelope that [send] and [update] of the
    missing [RealtimeManager] build; the origin is the connection identifier
    assigned so far (empty before the first connection). *)
Definition build (s : state) (ch : option string) (ev : string) (p : value)
  : Envelope :=
  mkEnvelope ch ev p (default "" (connId s)).

(** Modelled from the spec: the buffering rule of section 4.3 for the
    missing [RealtimeManager]: transmit when connected, else append to the
    buffer when buffering is on, else fail with [not_connected]; and once the
    state is [Closed] the call fails whatever the option, with nothing
    queued (section 8: after [disconnect()] any [send] fails, no silent
    queuing). *)
Definition send_envelope (e : Envelope) (s : state) : state * list effect :=
  if is_connected s then (s, [Transmit (SendFrame e)])
  else if is_closed s then (s, [Fail not_connected])
  else if bufferMessages (opts s) then (set_buffer (buffer s ++ [e]) s, [])
  else (s, [Fail not_connected]).

(** Modelled from the spec: [send(channel, event, payload)] of the missing
    [RealtimeManager] (section 4.3). *)
Definition send (ch : option string) (ev : string) (p : value) (s : state)
  : state * list effect :=
  send_envelope (build s ch ev p) s.

(** Modelled from the spec: several envelopes under the buffering rule, one
    after the other (used by [update] of the missing [RealtimeManager]). *)
Fixpoint send_all (es : list Envelope) (s : state) : state * list effect :=
  match es with
  | [] => (s, [])
  | e :: rest =>
      let '(s1, out1) := send_envelope e s in
      let '(s2, out2) := send_all rest s1 in
      (s2, out1 ++ out2)
  end.

(** Modelled from the spec: the envelopes of [update(payload)] of the
    missing [RealtimeManager]: the reserved event [member-updated] for every
    channel of the membership (section 4.3). *)
Definition update_envelopes (p : value) (s : state) : list Envelope :=
  map (fun c => build s (Some c) "member-updated" p) (elements (membership s)).

(** Modelled from the spec: [update(payload)] of the missing
    [RealtimeManager], under the same buffering rule as [send]. *)
Definition update (p : value) (s : state) : state * list effect :=
  send_all (update_envelopes p s) s.

(** Modelled from the spec: [on(eventName, callback)] of the missing
    [RealtimeManager]; registrations are kept in order, duplicates allowed. *)
Definition on (eventName : string) (cb : callback) (s : state) : state :=
  let r := registry s in
  set_registry (mkListeners (custom r ++ [(eventName, cb)]) (joinListeners r)
                  (leaveListeners r) (updateListeners r)) s.

(** Modelled from the spec: [onJoin(callback)] of the missing
    [RealtimeManager]. *)
Definition onJoin (cb : callback) (s : state) : state :=
  let r := registry s in
  set_registry (mkListeners (custom r) (joinListeners r ++ [cb])
                  (leaveListeners r) (updateListeners r)) s.

(** Modelled from the spec: [onLeave(callback)] of the missing
    [RealtimeManager]. *)
Definition onLeave (cb : callback) (s : state) : state :=
  let r := registry s in
  set_registry (mkListeners (custom r) (joinListeners r)
                  (leaveListeners r ++ [cb]) (updateListeners r)) s.

(** Modelled from the spec: [onUpdate(callback)] of the missing
    [RealtimeManager]. *)
Definition onUpdate (cb : callback) (s : state) : state :=
  let r := registry s in
  set_registry (mkListeners (custom r) (joinListeners r)
                  (leaveListeners r) (updateListeners r ++ [cb])) s.

(** Modelled from the spec: [connect()] of the missing [RealtimeManager]
    (section 4.1): from [Disconnected] to [Connecting] when the session gate
    allows it, else [session_required] and no change. *)
Definition connect (gate : bool) (s : state) : state * list effect :=
  match conn s with
  | Disconnected =>
      if gate then (set_conn Connecting s, [OpenTransport (timeout (opts s))])
      else (s, [Fail session_required])
  | _ => (s, [])
  end.

(** Modelled from the spec: [disconnect()] of the missing [RealtimeManager]
    (section 4.1): any state goes to [Closed], the pending timer is
    cancelled, an open transport is closed, the buffer is discarded. *)
Definition disconnect (s : state) : state * list effect :=
  (set_conn Closed (set_timerPending false (set_buffer [] s)),
   (if timerPending s then [CancelTimer] else [])
   ++ match conn s with
      | Connecting | Connected => [CloseTransport]
      | _ => []
      end).

(** Modelled from the spec: the frames of a successful connection of the
    missing [RealtimeManager] (section 4.1): the rejoin phase when
    [autoJoinChannels] is on, then the buffered envelopes, oldest first, when
    [bufferMessages] is on. *)
Definition rejoin_frames (s : state) : list frame :=
  if autoJoinChannels (opts s) then map JoinFrame (elements (membership s))
  else [].

(** Modelled from the spec: the flush of the outbound buffer by the missing
    [RealtimeManager], in FIFO order, when [bufferMessages] is on. *)
Definition flush_frames (s : state) : list frame :=
  if bufferMessages (opts s) then map SendFrame (buffer s) else [].

(** Modelled from the spec: [Connecting --success--> Connected] of the
    missing [RealtimeManager]: the identifier is assigned, joins are
    replayed, the buffer is flushed and then cleared. *)
Definition opened (id : string) (s : state) : state * list effect :=
  match conn s with
  | Connecting =>
      (set_conn Connected
         (set_connId (Some id)
            (if bufferMessages (opts s) then set_buffer [] s else s)),
       map Transmit (rejoin_frames s ++ flush_frames s))
  | _ => (s, [])
  end.

(** Modelled from the spec: the way into [Reconnecting] of the missing
    [RealtimeManager]: the recoverable condition is reported and a retry is
    scheduled after [reconnectionDelay]. *)
Definition reconnect_later (c : condition) (s : state) : state * list effect :=
  (set_conn Reconnecting (set_timerPending true s),
   [Report c; Schedule (reconnectionDelay (opts s))]).

(** Modelled from the spec: [Connecting --failure/timeout--> Reconnecting]
    of the missing [RealtimeManager] (section 4.1). *)
Definition failed (c : condition) (s : state) : state * list effect :=
  match conn s with
  | Connecting => reconnect_later c s
  | _ => (s, [])
  end.

(** Modelled from the spec: [Connected --transport drop--> Reconnecting] of
    the missing [RealtimeManager]. *)
Definition dropped (s : state) : state * list effect :=
  match conn s with
  | Connected => reconnect_later transport_error s
  | _ => (s, [])
  end.

(** Modelled from the spec: [Reconnecting --timer fires--> Connecting] of
    the missing [RealtimeManager]. *)
Definition timerFired (s : state) : state * list effect :=
  match conn s with
  | Reconnecting =>
      (set_conn Connecting (set_timerPending false s),
       [OpenTransport (timeout (opts s))])
  | _ => (s, [])
  end.

(** Modelled from the spec: session invalidation (section 5) in the missing
    [RealtimeManager]: reconnecting stops and [session_expired] is
    surfaced. *)
Definition sessionInvalidated (s : state) : state * list effect :=
  match conn s with
  | Connecting | Connected =>
      (set_conn Disconnected s, [Report session_expired; CloseTransport])
  | _ => (s, [])
  end.

(** Modelled from the spec: reserved event names of presence notifications
    handled by the missing [RealtimeManager]. *)
Definition presence_kind_of (ev : string) : option presence_kind :=
  if String.eqb ev "member-joined" then Some MemberJoined
  else if String.eqb ev "member-left" then Some MemberLeft
  else if String.eqb ev "member-updated" then Some MemberUpdated
  else None.

(** Modelled from the spec: the system listeners of the missing
    [RealtimeManager] for a kind of presence notification. *)
Definition system_listeners (k : presence_kind) (s : state) : list callback :=
  match k with
  | MemberJoined => joinListeners (registry s)
  | MemberLeft => leaveListeners (registry s)
  | MemberUpdated => updateListeners (registry s)
  end.

(** Modelled from the spec: the callbacks registered with [on] for an event
    name, in registration order (registry of the missing
    [RealtimeManager]). *)
Fixpoint callbacks_for (ev : string) (l : list (string * callback))
  : list callback :=
  match l with
  | [] => []
  | (name, cb) :: rest =>
      if String.eqb name ev then cb :: callbacks_for ev rest
      else callbacks_for ev rest
  end.

(** Modelled from the spec: echo suppression in the missing
    [RealtimeManager]: with [echoMessages] off, an envelope whose origin is
    the local connection identifier is kept from the custom listeners. *)
Definition is_own (e : Envelope) (s : state) : bool :=
  match connId s with
  | Some id => String.eqb (originId e) id
  | None => false
  end.

(** Modelled from the spec: whether the missing [RealtimeManager] keeps an
    envelope from the custom listeners as an echo. *)
Definition suppressed (e : Envelope) (s : state) : bool :=
  negb (echoMessages (opts s)) && is_own e s.

(** Modelled from the spec: what the missing [RealtimeManager] hands to a
    listener. A listener is a [ListenerFunction] of [types.ts]: it takes an
    [EventData], the channel and the message. *)
Definition deliver (e : Envelope) : EventData :=
  mkEventData (channel e) (payload e).

(** Modelled from the spec: what the missing [RealtimeManager] hands to a
    presence listener: the channel and the member, a [MemberData]. *)
Definition deliver_presence (e : Envelope) : EventData :=
  mkEventData (channel e) (MemberData_value (originId e) (payload e)).

(** Modelled from the spec: dispatch of the missing [RealtimeManager]
    (section 4.4): callbacks run in registration order, and one that throws
    is reported and does not stop the next. *)
Fixpoint dispatch (r : registration) (cbs : list callback) (d : EventData)
  : list effect :=
  match cbs with
  | [] => []
  | cb :: rest =>
      Invoke r (cb_id cb) d
      :: (if cb_run cb d then [] else [Report listener_error])
      ++ dispatch r rest d
  end.

(** Modelled from the spec: the presence entries kept by the missing
    [RealtimeManager] (sections 3 and 4.2): join and update notifications
    store the member's profile, unless the member is the local client; leave
    notifications remove the member. *)
Definition update_presence (e : Envelope) (s : state)
  : gmap string (gmap string value) :=
  match presence_kind_of (event e), channel e with
  | Some MemberLeft, Some c =>
      <[c := delete (originId e) (default ∅ (presence s !! c))]> (presence s)
  | Some _, Some c =>
      if is_own e s then presence s
      else <[c := <[originId e := payload e]> (default ∅ (presence s !! c))]>
             (presence s)
  | _, _ => presence s
  end.

(** Modelled from the spec: an inbound frame in the missing
    [RealtimeManager]: presence is updated, the system listeners run first
    and whatever the origin, then the custom listeners of the event unless
    the envelope is a suppressed echo. *)
Definition inbound (e : Envelope) (s : state) : state * list effect :=
  (set_presence (update_presence e s) s,
   match presence_kind_of (event e) with
   | Some k => dispatch (System k) (system_listeners k s) (deliver_presence e)
   | None => []
   end
   ++ (if suppressed e s then []
       else dispatch (Custom (event e))
              (callbacks_for (event e) (custom (registry s))) (deliver e))).

(** Modelled from the spec: one step of the missing [RealtimeManager]. *)
Definition step (i : input) (s : state) : state * list effect :=
  match i with
  | Join name => join name s
  | Leave name => leave name s
  | Send ch ev p => send ch ev p s
  | Update p => update p s
  | On ev cb => (on ev cb s, [])
  | OnJoin cb => (onJoin cb s, [])
  | OnLeave cb => (onLeave cb s, [])
  | OnUpdate cb => (onUpdate cb s, [])
  | Connect gate => connect gate s
  | Disconnect => disconnect s
  | Opened id => opened id s
  | Failed => failed transport_error s
  | TimedOut => failed connection_timeout s
  | Dropped => dropped s
  | TimerFired => timerFired s
  | SessionInvalidated => sessionInvalidated s
  | Inbound e => inbound e s
  end.

(** Modelled from the spec: a run of the missing [RealtimeManager] over a
    sequence of inputs, with everything it did on the way. *)
Fixpoint run (ins : list input) (s : state) : state * list effect :=
  match ins with
  | [] => (s, [])
  | i :: rest =>
      let '(s1, out1) := step i s in
      let '(s2, out2) := run rest s1 in
      (s2, out1 ++ out2)
  end.

(** The inputs keep the client away from [Connected]: it is not connected
    before any of them, nor after the last. *)
Fixpoint offline (ins : list input) (s : state) : bool :=
  negb (is_connected s)
  && match ins with
     | [] => true
     | i :: rest => offline rest (fst (step i s))
     end.

(** The envelopes that the [send] and [update] calls among the inputs build,
    in call order. *)
Fixpoint built (ins : list input) (s : state) : list Envelope :=
  match ins with
  | [] => []
  | i :: rest =>
      match i with
      | Send ch ev p => [build s ch ev p]
      | Update p => update_envelopes p s
      | _ => []
      end ++ built rest (fst (step i s))
  end.


(** The frames among the effects, in the order they were transmitted. *)
Fixpoint transmitted (out : list effect) : list frame :=
  match out with
  | [] => []
  | Transmit f :: rest => f :: transmitted rest
  | _ :: rest => transmitted rest
  end.

(** The callbacks invoked among the effects, in order, each with the
    registration it was reached through and what it was handed. *)
Fixpoint invoked (out : list effect) : list (registration * nat * EventData) :=
  match out with
  | [] => []
  | Invoke r cb d :: rest => (r, cb, d) :: invoked rest
  | _ :: rest => invoked rest
  end.




End Realtime.

(** ** Derived notions

    What the properties of the client are stated with: the arguments a
    manager was constructed with, the pieces of [upload], white space, and
    two clients side by side. *)

Module Derived.
Import Client.

(** The fetcher that a manager holds (the [fetcher] member of [APIBase]). *)
Definition object_fetcher (o : object) : option loc :=
  match o with
  | FetcherObj _ _ _ => None
  | AuthManagerObj f _ => Some f
  | EndpointManagerObj f => Some f
  | StorageManagerObj _ f => Some f
  | BucketManagerObj _ _ f => Some f
  | RealtimeManagerObj f _ => Some f
  end.

(** The settings that a manager was constructed with, if it takes any. *)
Definition object_settings (o : object) : option ClientSettings :=
  match o with
  | AuthManagerObj _ st => Some st
  | RealtimeManagerObj _ st => Some st
  | _ => None
  end.

(** A client whose references are sound: its fetcher is a fetcher, and each
    manager field that is set holds a manager of its kind, constructed with
    the client's fetcher and, where it takes settings, the client's
    settings. *)
Definition well_formed (c : AgnostClient) (h : heap) : Prop :=
  (exists url headers session,
     h !! fetcher c = Some (FetcherObj url headers session))
  /\ forall k m,
       field k c = Some m ->
       exists o,
         h !! m = Some o
         /\ is_manager k o = true
         /\ object_fetcher o = Some (fetcher c)
         /\ forall st, object_settings o = Some st -> st = settings c.

(** The headers that the constructor gives to the fetcher. *)
Definition default_headers (apiKey : value) : gmap string value :=
  <["Authorization" := apiKey]> (<["X-Client" := VStr "agnost-js"]> ∅).

(** The test of [upload] on its body:
    [(typeof FormData !== "undefined" && fileBody instanceof FormData) || ...]. *)
Definition accepts (g : Globals) (body : UploadBody) : bool :=
  has_FormData g && instanceof_FormData body
  || has_Blob g && instanceof_Blob body
  || has_File g && instanceof_File body.

(** The error of [upload] for any other body. *)
Definition unsupported_file_format : exn :=
  ClientError "unsupported_file_format"
    "You can only upload FormData, Blog or File objects through the Agnost client library".

(** [options?.onProgress] *)
Definition onProgress_of (opts : option (gmap string value)) : value :=
  default VUndefined (default ∅ opts !! "onProgress").

(** The query of [upload],
    [{ fileName, options: { ...DEFAULT_FILE_OPTIONS, ...options, onProgress: undefined } }]. *)
Definition upload_query (name : string) (opts : option (gmap string value))
  : UploadQuery :=
  {| fileName := name;
     options := <["onProgress" := VUndefined]>
                  (spread DEFAULT_FILE_OPTIONS (default ∅ opts)) |}.

(** Strings of white space only, and strings without any. *)
Fixpoint all_white_space (s : string) : bool :=
  match s with
  | EmptyString => true
  | String a rest => is_white_space a && all_white_space rest
  end.

Fixpoint no_white_space (s : string) : bool :=
  match s with
  | EmptyString => true
  | String a rest => negb (is_white_space a) && no_white_space rest
  end.

(** Strings without a slash. *)
Fixpoint no_slash (s : string) : bool :=
  match s with
  | EmptyString => true
  | String a rest => negb (Ascii.eqb a "/") && no_slash rest
  end.

(** Accesses to two clients living in one heap, in any interleaving: [true]
    is an access to the first client, [false] one to the second. *)
Fixpoint accesses2 (l : list (bool * access)) (c1 c2 : AgnostClient) (h : heap)
  : list (bool * loc) * AgnostClient * AgnostClient * heap :=
  match l with
  | [] => ([], c1, c2, h)
  | (true, a) :: rest =>
      let '(m, c1', h1) := get a c1 h in
      let '(rs, d1, d2, h2) := accesses2 rest c1' c2 h1 in
      ((true, m) :: rs, d1, d2, h2)
  | (false, a) :: rest =>
      let '(m, c2', h1) := get a c2 h in
      let '(rs, d1, d2, h2) := accesses2 rest c1 c2' h1 in
      ((false, m) :: rs, d1, d2, h2)
  end.





End Derived.

(** ** Sample environments

    Concrete helpers, requests, options and callbacks to run the definitions
    on examples. *)

Module Samples.
Import Client Types.

(** Helpers in which [checkRequired] refuses [undefined] and [null],
    [normalizeUrl] trims a string and takes anything else for the URL that
    function 1 returns, there is no browser storage and no stored session.
    Function 1 returns a URL with a scheme, function 2 one without, and
    every other function returns [undefined]. *)
Definition helpers : Helpers :=
  {| checkRequired := fun name v =>
       match v with
       | VUndefined | VNull =>
           Some (ClientError "missing_required_value"
                   (name +:+ " is a required parameter, cannot be left empty"))
       | _ => None
       end;
     normalizeUrl := fun v =>
       match v with VStr s => trim s | _ => "https://duck.example" end;
     window_localStorage := VUndefined;
     getSession := fun _ => VNull;
     call := fun f _ _ =>
       match f with
       | 1%nat => Return (VStr "https://duck.example")
       | 2%nat => Return (VStr "duck.example")
       | _ => Return VUndefined
       end |}.

(** An object that is not a string but has a [trim] method. *)
Definition duck_url : value := VObj [("trim", VFun 1)].

Definition not_found : value :=
  VObj [("data", VNull);
        ("errors",
         VObj [("status", VNum 404);
               ("statusText", VStr "Not Found");
               ("items",
                VArr [VObj [("origin", VStr "client_error");
                            ("code", VStr "bucket_not_found");
                            ("message", VStr "No such bucket")]])])].

Definition stored (path : string) : value :=
  VObj [("data", VObj [("path", VStr path)]); ("errors", VNull)].

(** Requests in which a plain post finds no bucket and an upload with
    progress succeeds. *)
Definition requests : FetcherOps :=
  {| fetcher_post := fun _ _ _ _ _ => Return not_found;
     fetcher_upload := fun _ path _ _ _ _ _ => Return (stored path) |}.

Definition browser : Globals :=
  {| has_FormData := true; has_Blob := true; has_File := true;
     has_XMLHttpRequest := true |}.

(** A client built with a partial set of realtime options. *)
Definition partial_options : ClientOptions :=
  {| co_localStorage := None;
     co_signInRedirect := None;
     co_realtime :=
       Some (<["timeout" := VNum 50]> (<["echoMessages" := VBool false]> ∅)) |}.

Definition defaults : Realtime.options :=
  {| Realtime.autoJoinChannels := true;
     Realtime.echoMessages := true;
     Realtime.reconnectionDelay := 1000;
     Realtime.timeout := 20000;
     Realtime.bufferMessages := true |}.

Definition no_echo : Realtime.options :=
  {| Realtime.autoJoinChannels := true;
     Realtime.echoMessages := false;
     Realtime.reconnectionDelay := 1000;
     Realtime.timeout := 20000;
     Realtime.bufferMessages := true |}.

Definition no_buffer : Realtime.options :=
  {| Realtime.autoJoinChannels := true;
     Realtime.echoMessages := true;
     Realtime.reconnectionDelay := 1000;
     Realtime.timeout := 20000;
     Realtime.bufferMessages := false |}.

(** A client with an open connection, and one closed by [disconnect()]. *)
Definition connected : Realtime.state :=
  fst (Realtime.run [Realtime.Connect true; Realtime.Opened "c1"]
         (Realtime.init defaults)).

Definition closed : Realtime.state :=
  fst (Realtime.run [Realtime.Disconnect] (Realtime.init defaults)).

Definition listener (n : nat) : Realtime.callback :=
  {| Realtime.cb_id := n; Realtime.cb_run := fun _ => true |}.

Definition hi (origin : string) : Realtime.Envelope :=
  Realtime.mkEnvelope (Some "chat_room") "msg" (VStr "hi") origin.

(** Joined to a channel and offline: two messages are sent, then a
    connection attempt starts. *)
Definition went_offline : Realtime.state :=
  fst (Realtime.run
         [Realtime.Connect true; Realtime.Opened "c1";
          Realtime.Join "chat_room"; Realtime.Dropped]
         (Realtime.init defaults)).

Definition sends_while_offline : list Realtime.input :=
  [Realtime.Send (Some "chat_room") "msg" (VStr "hi");
   Realtime.Send (Some "chat_room") "msg" (VStr "hi");
   Realtime.TimerFired].

(** A heap with a fetcher and a bucket manager for bucket [avatars] of
    storage [files]. *)
Definition bucket_heap : heap :=
  [FetcherObj "https://app.example.com/env" ∅ VNull;
   BucketManagerObj "files" "avatars" 0%nat].

(** A client as the constructor leaves it: fetcher and auth manager
    allocated, no other manager yet. *)
Definition new_client : AgnostClient :=
  mkClient (@merge_settings helpers None) 0%nat (Some 1%nat) None None None.

Definition new_heap : heap :=
  [FetcherObj "https://app.example.com/env" ∅ VNull;
   AuthManagerObj 0%nat (@merge_settings helpers None)].

End Samples.

(** ** More samples: constructed clients and their heaps *)

Module Built.
Import Client Derived Samples.

(** The settings of a client built without options. *)
Definition plain_settings : ClientSettings := @merge_settings helpers None.

(** What [new AgnostClient("https://app.example.com/env", "key")] leaves in
    an empty heap. *)
Definition first_client : AgnostClient :=
  mkClient plain_settings 0%nat (Some 1%nat) None None None.

Definition first_heap : heap :=
  [FetcherObj "https://app.example.com/env" (default_headers (VStr "key")) VNull;
   AuthManagerObj 0%nat plain_settings].

(** A second client built after the first, in the same heap. *)
Definition second_client : AgnostClient :=
  mkClient plain_settings 2%nat (Some 3%nat) None None None.

Definition second_heap : heap :=
  first_heap
  ++ [FetcherObj "http://localhost:4000" (default_headers (VStr "other")) VNull;
      AuthManagerObj 2%nat plain_settings].

(** The first client after [storage("files")]. *)
Definition storage_heap : heap :=
  first_heap ++ [StorageManagerObj "files" 0%nat].

(** Options of an upload with a progress callback. *)
Definition with_progress : gmap string value :=
  <["onProgress" := VFun 1]> (<["isPublic" := VBool true]> ∅).

End Built.

(** * Properties *)

(** Case analysis along the transitions of the connection controller. *)
Ltac transition :=
  unfold Realtime.join, Realtime.leave, Realtime.send, Realtime.send_envelope,
    Realtime.connect, Realtime.disconnect, Realtime.opened, Realtime.failed,
    Realtime.dropped, Realtime.timerFired, Realtime.sessionInvalidated,
    Realtime.reconnect_later, Realtime.is_connected, Realtime.is_closed in *;
  repeat case_match; simpl in *.

(** ** Channel membership *)

Section Membership.
Import Realtime.

Lemma send_envelope_frame (e : Envelope) (s : state) :
  let s' := fst (send_envelope e s) in
  conn s' = conn s /\ connId s' = connId s /\ membership s' = membership s
  /\ opts s' = opts s /\ registry s' = registry s.
Proof. unfold send_envelope. by repeat case_match. Qed.

Lemma send_all_frame (es : list Envelope) (s : state) :
  let s' := fst (send_all es s) in
  conn s' = conn s /\ connId s' = connId s /\ membership s' = membership s
  /\ opts s' = opts s /\ registry s' = registry s.
Proof.
  revert s. induction es as [| e es IH]; intros s; simpl; [done |].
  pose proof (send_envelope_frame e s) as Hs.
  destruct (send_envelope e s) as [s1 out1]; simpl in Hs.
  specialize (IH s1).
  destruct (send_all es s1) as [s2 out2]; simpl in *.
  destruct Hs as (? & ? & ? & ? & ?), IH as (? & ? & ? & ? & ?).
  repeat split; congruence.
Qed.

Lemma is_closed_spec (s : state) : is_closed s = true <-> conn s = Closed.
Proof. unfold is_closed. by destruct (conn s). Qed.

Lemma is_closed_false (s : state) : is_closed s = false <-> conn s <> Closed.
Proof. unfold is_closed. by destruct (conn s). Qed.

(** Only [disconnect] closes the client, and nothing opens it again. *)
Lemma step_is_closed (i : input) (s : state) :
  is_closed (fst (step i s)) =
  match i with Disconnect => true | _ => is_closed s end.
Proof.
  destruct i; simpl; try reflexivity;
    try (by unfold is_closed; destruct (conn s) eqn:Hc; transition;
         rewrite ?Hc; congruence).
  unfold is_closed, update.
  by rewrite (proj1 (send_all_frame (update_envelopes p s) s)).
Qed.



Lemma run_cons (i : input) (ins : list input) (s : state) :
  fst (run (i :: ins) s) = fst (run ins (fst (step i s))).
Proof.
  simpl. destruct (step i s) as [s1 out1]; simpl.
  destruct (run ins s1); reflexivity.
Qed.







End Membership.

(** ** Sending, buffering and replay *)

Section Buffering.
Import Realtime.

Lemma step_opts (i : input) (s : state) : opts (fst (step i s)) = opts s.
Proof.
  destruct i; simpl; try reflexivity; try (transition; reflexivity).
  apply (send_all_frame (update_envelopes p s) s).
Qed.

(** [Closed] is terminal. *)
Lemma step_closed (i : input) (s : state) :
  conn s = Closed -> conn (fst (step i s)) = Closed.
Proof.
  intros Hc%is_closed_spec. apply is_closed_spec.
  rewrite step_is_closed. by destruct i.
Qed.

Lemma run_closed (ins : list input) (s : state) :
  conn s = Closed -> conn (fst (run ins s)) = Closed.
Proof.
  revert s. induction ins as [| i ins IH]; intros s Hc; [done |].
  rewrite run_cons. apply IH, step_closed, Hc.
Qed.

Lemma send_all_offline (es : list Envelope) (s : state) :
  is_connected s = false -> is_closed s = false ->
  bufferMessages (opts s) = true ->
  send_all es s = (set_buffer (buffer s ++ es) s, []).
Proof.
  revert s. induction es as [| e es IH]; intros s Hoff Hopen Hbuf; simpl.
  - rewrite app_nil_r. by destruct s.
  - unfold send_envelope. rewrite Hoff, Hopen, Hbuf.
    rewrite IH by done. simpl. by rewrite <- app_assoc.
Qed.

Lemma transmitted_dispatch (r : registration) (cbs : list callback)
    (d : Types.EventData) :
  transmitted (dispatch r cbs d) = [].
Proof.
  induction cbs as [| cb cbs IH]; [done |]. simpl. by destruct (cb_run cb d).
Qed.

Lemma transmitted_app (a b : list effect) :
  transmitted (a ++ b) = transmitted a ++ transmitted b.
Proof.
  induction a as [| x a IH]; [done |].
  destruct x; simpl; by rewrite ?IH.
Qed.

Lemma transmitted_map (l : list frame) : transmitted (map Transmit l) = l.
Proof. induction l as [| f l IH]; [done |]. simpl. by rewrite IH. Qed.

Lemma run_app (a b : list input) (s : state) :
  run (a ++ b) s =
  (fst (run b (fst (run a s))), snd (run a s) ++ snd (run b (fst (run a s)))).
Proof.
  revert s. induction a as [| i a IH]; intros s; simpl.
  - by destruct (run b s).
  - destruct (step i s) as [s1 out1]. rewrite IH.
    destruct (run a s1) as [s2 out2]; simpl. by rewrite app_assoc.
Qed.

(** C4, as amended. [send] leaves the client as it is and transmits the
    envelope at once when connected; on a client closed for good it fails
    with [not_connected] whatever the option, with nothing queued; in every
    other state it appends the envelope to the outbound buffer if
    [bufferMessages] is on, and otherwise fails with [not_connected], with
    nothing buffered and nothing transmitted. What a call did tells which
    case it was, and any [send] after a [disconnect] fails. *)
Theorem send_by_connection_state (ch : option string) (ev : string)
    (p : value) (s : state) :
  let e := build s ch ev p in
  let s' := fst (send ch ev p s) in
  let out := snd (send ch ev p s) in
  (conn s = Connected -> s' = s /\ out = [Transmit (SendFrame e)])
  /\ (conn s = Closed -> s' = s /\ out = [Fail not_connected])
  /\ (conn s <> Connected -> conn s <> Closed ->
      bufferMessages (opts s) = true ->
      s' = set_buffer (buffer s ++ [e]) s /\ out = [])
  /\ (conn s <> Connected -> bufferMessages (opts s) = false ->
      s' = s /\ out = [Fail not_connected])
  /\ (transmitted out = [SendFrame e] <-> conn s = Connected)
  /\ (transmitted out = [] <-> conn s <> Connected)
  /\ (buffer s' = buffer s ++ [e] <->
      conn s <> Connected /\ conn s <> Closed
      /\ bufferMessages (opts s) = true)
  /\ (buffer s' = buffer s <->
      conn s = Connected \/ conn s = Closed
      \/ bufferMessages (opts s) = false)
  /\ (Fail not_connected ∈ out <->
      conn s <> Connected
      /\ (conn s = Closed \/ bufferMessages (opts s) = false))
  /\ (forall before after s0,
        s = fst (run (before ++ Disconnect :: after) s0) ->
        s' = s /\ out = [Fail not_connected]).
Proof.
  assert (Hgrow : forall e, buffer s ++ [e] <> buffer s).
  { intros e H. apply (f_equal length) in H.
    rewrite length_app in H. simpl in H. lia. }
  assert (Hgrow' : forall e, buffer s <> buffer s ++ [e]).
  { intros e H. by apply (Hgrow e). }
  assert (Hclosed : conn s = Closed ->
            send ch ev p s = (s, [Fail not_connected])).
  { intros Hc. unfold send, send_envelope, is_connected, is_closed.
    by rewrite Hc. }
  simpl. split_and!.
  - intros Hc. unfold send, send_envelope, is_connected. by rewrite Hc.
  - intros Hc. by rewrite Hclosed.
  - intros Hc Ho Hb. unfold send, send_envelope, is_connected, is_closed.
    rewrite Hb. by destruct (conn s).
  - intros Hc Hb. unfold send, send_envelope, is_connected, is_closed.
    rewrite Hb. by destruct (conn s).
  - unfold send, send_envelope, is_connected, is_closed.
    destruct (conn s), (bufferMessages (opts s)); simpl; split; done.
  - unfold send, send_envelope, is_connected, is_closed.
    destruct (conn s), (bufferMessages (opts s)); simpl; split; done.
  - unfold send, send_envelope, is_connected, is_closed.
    destruct (conn s), (bufferMessages (opts s)); simpl; split;
      try done; try (by intros ?%Hgrow'); by intros (? & ? & ?).
  - unfold send, send_envelope, is_connected, is_closed.
    destruct (conn s), (bufferMessages (opts s)); simpl; split;
      try done; try (by intros ?%Hgrow); try (by intros [? | [? | ?]]);
      try (by left); try (by right; left); by right; right.
  - unfold send, send_envelope, is_connected, is_closed.
    destruct (conn s), (bufferMessages (opts s)); simpl;
      rewrite ?list_elem_of_singleton, ?elem_of_nil; naive_solver.
  - intros before after s0 Hs. rewrite Hclosed; [done |].
    rewrite Hs, run_app, run_cons. simpl. by apply run_closed.
Qed.

(** Away from [Connected] and not closed, with buffering on, an input other
    than [disconnect] adds to the buffer the envelopes it builds and nothing
    else, and transmits nothing. *)
Lemma offline_step (i : input) (s : state) :
  is_connected s = false -> is_closed s = false ->
  bufferMessages (opts s) = true ->
  is_connected (fst (step i s)) = false ->
  i <> Disconnect ->
  buffer (fst (step i s)) = buffer s ++ built [i] s
  /\ transmitted (snd (step i s)) = [].
Proof.
  intros Hoff Hopen Hbuf Hnext Hi.
  destruct i; simpl in *; rewrite ?app_nil_r; try done;
    try (by transition).
  - unfold update. by rewrite send_all_offline.
  - split; [done |]. rewrite transmitted_app.
    by repeat case_match; rewrite ?transmitted_dispatch.
Qed.

(** While the client stays away from [Connected] and is not closed for
    good, the buffer grows by the envelopes built, in call order, and no
    frame goes out. *)
Lemma offline_run (ins : list input) (s : state) :
  bufferMessages (opts s) = true ->
  offline ins s = true ->
  conn (fst (run ins s)) <> Closed ->
  buffer (fst (run ins s)) = buffer s ++ built ins s
  /\ transmitted (snd (run ins s)) = [].
Proof.
  revert s. induction ins as [| i ins IH]; intros s Hbuf Hoff Hend.
  - simpl. by rewrite app_nil_r.
  - simpl in Hoff. apply andb_true_iff in Hoff as [Hs Hrest].
    apply negb_true_iff in Hs.
    assert (Hnext : is_connected (fst (step i s)) = false).
    { destruct ins; simpl in Hrest;
        apply andb_true_iff in Hrest as [Hn _]; by apply negb_true_iff. }
    assert (Hi : i <> Disconnect).
    { intros ->. apply Hend. rewrite run_cons. by apply run_closed. }
    assert (Hopen : is_closed s = false).
    { apply is_closed_false. intros Hc. by apply Hend, run_closed. }
    destruct (offline_step i s Hs Hopen Hbuf Hnext Hi) as [Hb Ht].
    rewrite run_cons in Hend.
    destruct (IH (fst (step i s))) as [Hb' Ht']; [| done | done |].
    { by rewrite step_opts. }
    split.
    + rewrite run_cons, Hb', Hb. simpl. rewrite app_nil_r.
      by rewrite <- app_assoc.
    + simpl. destruct (step i s) as [s1 out1]; simpl in *.
      destruct (run ins s1) as [s2 out2]; simpl in *.
      by rewrite transmitted_app, Ht, Ht'.
Qed.

Lemma rejoin_frames_join (s : state) (i : nat) (f : frame) :
  rejoin_frames s !! i = Some f -> exists c, f = JoinFrame c.
Proof.
  unfold rejoin_frames. destruct (autoJoinChannels (opts s)); [| done].
  revert i. induction (elements (membership s)) as [| c l IH]; intros i; [done |].
  destruct i as [| i]; simpl; [intros [= <-]; eauto | apply IH].
Qed.

Lemma send_frames_send (l : list Envelope) (i : nat) (f : frame) :
  map SendFrame l !! i = Some f -> exists e, f = SendFrame e.
Proof.
  revert i. induction l as [| e l IH]; intros i; [done |].
  destruct i as [| i]; simpl; [intros [= <-]; eauto | apply IH].
Qed.

(** C2. With [bufferMessages] on: if the client stays away from [Connected]
    during some inputs and a connection then succeeds, the frames
    transmitted over all of this are exactly the rejoin frames followed by
    the envelopes that were in the buffer and those the [send] and [update]
    calls built, oldest first; every rejoin frame comes before every
    buffered envelope; with [autoJoinChannels] on every channel of the
    membership has its rejoin frame; and the buffer is empty afterwards. *)
Theorem buffered_sends_replayed_in_order (ins : list input) (s : state)
    (id : string) :
  bufferMessages (opts s) = true ->
  offline ins s = true ->
  conn (fst (run ins s)) = Connecting ->
  let s' := fst (run ins s) in
  let after := run (ins ++ [Opened id]) s in
  let frames := rejoin_frames s' ++ map SendFrame (buffer s ++ built ins s) in
  transmitted (snd after) = frames
  /\ conn (fst after) = Connected
  /\ buffer (fst after) = []
  /\ (forall i j c e,
        frames !! i = Some (JoinFrame c) -> frames !! j = Some (SendFrame e) ->
        (i < j)%nat)
  /\ (autoJoinChannels (opts s') = true ->
      forall c, c ∈ membership s' -> JoinFrame c ∈ rejoin_frames s').
Proof.
  intros Hbuf Hoff Hconn. simpl.
  destruct (offline_run ins s Hbuf Hoff) as [Hb Ht]; [by rewrite Hconn |].
  assert (Hopts : bufferMessages (opts (fst (run ins s))) = true).
  { clear -Hbuf. revert s Hbuf. induction ins as [| i ins IH]; intros s Hbuf; [done |].
    rewrite run_cons. apply IH. by rewrite step_opts. }
  rewrite run_app. simpl.
  unfold opened. rewrite Hconn. simpl.
  rewrite transmitted_app, Ht, app_nil_r, transmitted_map. simpl.
  unfold flush_frames. rewrite Hopts, Hb. simpl.
  repeat split.
  - intros i j c e Hi Hj.
    apply lookup_app_Some in Hi as [Hi | [_ Hi]].
    2: { apply send_frames_send in Hi as [? ?]; done. }
    apply lookup_app_Some in Hj as [Hj | [Hj _]].
    { apply rejoin_frames_join in Hj as [? ?]; done. }
    apply lookup_lt_Some in Hi. lia.
  - intros Hauto c Hc. unfold rejoin_frames. rewrite Hauto.
    apply list_elem_of_In, in_map, list_elem_of_In, elem_of_elements, Hc.
Qed.

End Buffering.

(** ** Listener dispatch *)

Section Dispatch.
Import Types Realtime.

Lemma dispatch_elem (r : registration) (cbs : list callback) (d : EventData)
    (x : effect) :
  x ∈ dispatch r cbs d ->
  x = Report listener_error \/ exists cb, cb ∈ cbs /\ x = Invoke r (cb_id cb) d.
Proof.
  induction cbs as [| cb cbs IH]; simpl; [by intros ?%elem_of_nil |].
  intros [-> | Hin]%elem_of_cons.
  { right. exists cb. split; [left | done]. }
  apply elem_of_app in Hin as [Hin | Hin].
  - destruct (cb_run cb d); [by apply elem_of_nil in Hin |].
    apply list_elem_of_singleton in Hin. by left.
  - destruct (IH Hin) as [? | (cb' & ? & ?)]; [by left |].
    right. exists cb'. split; [by right | done].
Qed.

Lemma dispatch_invokes (r : registration) (cbs : list callback)
    (d : EventData) (cb : callback) :
  cb ∈ cbs -> Invoke r (cb_id cb) d ∈ dispatch r cbs d.
Proof.
  induction cbs as [| cb' cbs IH]; simpl; [by intros ?%elem_of_nil |].
  intros [-> | Hin]%elem_of_cons; [left |].
  right. apply elem_of_app. right. by apply IH.
Qed.

(** C3. With [echoMessages] off, an inbound envelope whose origin is the
    client's own connection identifier reaches no listener registered with
    [on]; and a presence notification reaches every registered presence
    listener of its kind, whatever its origin and whatever the option. *)
Theorem echo_suppressed_presence_delivered (e : Envelope) (s : state) :
  (echoMessages (opts s) = false -> connId s = Some (originId e) ->
   forall ev cb d, Invoke (Custom ev) cb d ∉ snd (inbound e s))
  /\ (forall k cb,
        presence_kind_of (event e) = Some k -> cb ∈ system_listeners k s ->
        Invoke (System k) (cb_id cb) (deliver_presence e) ∈ snd (inbound e s)).
Proof.
  split.
  - intros Hecho Hid ev cb d. unfold inbound, suppressed, is_own. simpl.
    rewrite Hecho, Hid, String.eqb_refl. simpl. rewrite app_nil_r.
    destruct (presence_kind_of (event e)) as [k |]; [| apply not_elem_of_nil].
    intros [? | (? & _ & ?)]%dispatch_elem; done.
  - intros k cb Hk Hcb. unfold inbound. simpl. rewrite Hk.
    apply elem_of_app. left. by apply dispatch_invokes.
Qed.

Lemma invoked_elem (out : list effect) r cb d :
  Invoke r cb d ∈ out <-> (r, cb, d) ∈ invoked out.
Proof.
  induction out as [| x out IH]; simpl.
  - split; by intros ?%elem_of_nil.
  - destruct x; rewrite ?elem_of_cons, IH; naive_solver.
Qed.

Lemma invoked_app (a b : list effect) :
  invoked (a ++ b) = invoked a ++ invoked b.
Proof.
  induction a as [| x a IH]; [done |].
  destruct x; simpl; by rewrite ?IH.
Qed.

Lemma invoked_map_Transmit (l : list frame) : invoked (map Transmit l) = [].
Proof. by induction l. Qed.

Lemma send_all_invoked (es : list Envelope) (s : state) :
  invoked (snd (send_all es s)) = [].
Proof.
  revert s. induction es as [| e es IH]; intros s; simpl; [done |].
  assert (Hs : invoked (snd (send_envelope e s)) = []) by (by transition).
  destruct (send_envelope e s) as [s1 out1]. specialize (IH s1).
  destruct (send_all es s1) as [s2 out2]. simpl in *.
  by rewrite invoked_app, Hs, IH.
Qed.

(** Only an inbound frame invokes listeners. *)
Lemma step_invoked (i : input) (s : state) :
  invoked (snd (step i s)) =
  match i with
  | Inbound e => invoked (snd (inbound e s))
  | _ => []
  end.
Proof.
  destruct i; simpl; try reflexivity; try (by transition).
  - apply send_all_invoked.
  - unfold opened. case_match; simpl; try done. apply invoked_map_Transmit.
Qed.

(** What an inbound frame hands to a listener is the channel of the envelope
    together with a message. *)
Lemma inbound_invokes (e : Envelope) (s : state) r cb d :
  Invoke r cb d ∈ snd (inbound e s) -> d = deliver e \/ d = deliver_presence e.
Proof.
  intros [Hin | Hin]%elem_of_app.
  - destruct (presence_kind_of (event e)); [| by apply elem_of_nil in Hin].
    apply dispatch_elem in Hin as [? | (? & _ & [= _ _ ->])]; [done |].
    by right.
  - destruct (suppressed e s); [by apply elem_of_nil in Hin |].
    apply dispatch_elem in Hin as [? | (? & _ & [= _ _ ->])]; [done |].
    by left.
Qed.

Lemma step_invokes (i : input) (s : state) r cb d :
  Invoke r cb d ∈ snd (step i s) ->
  exists e, i = Inbound e /\ (d = deliver e \/ d = deliver_presence e).
Proof.
  intros Hout.
  destruct i;
    try (apply invoked_elem in Hout; rewrite step_invoked in Hout;
         by apply elem_of_nil in Hout).
  exists e. split; [done |]. by apply (inbound_invokes e s r cb).
Qed.

Lemma run_invokes (ins : list input) (s : state) r cb d :
  Invoke r cb d ∈ snd (run ins s) ->
  exists e, Inbound e ∈ ins /\ (d = deliver e \/ d = deliver_presence e).
Proof.
  revert s. induction ins as [| i ins IH]; intros s; simpl;
    [by intros ?%elem_of_nil |].
  pose proof (step_invokes i s r cb d) as Hstep.
  destruct (step i s) as [s1 out1]. specialize (IH s1).
  destruct (run ins s1) as [s2 out2]. simpl in *.
  intros [Hin | Hin]%elem_of_app.
  - destruct (Hstep Hin) as (e & -> & Hd). exists e. split; [left | done].
  - destruct (IH Hin) as (e & He & Hd). exists e. split; [by right | done].
Qed.



End Dispatch.

(** ** Construction of a client *)

Section Construction.
Import Client.
Context `{Helpers}.

(** On a string the first test of the constructor is [valid_baseUrl]. *)
Lemma baseUrl_rejected_string (url : string) :
  baseUrl_rejected (VStr url) = Return (negb (valid_baseUrl url)).
Proof.
  unfold baseUrl_rejected, trimmed_startsWith, valid_baseUrl. simpl.
  destruct (String.eqb_spec url "") as [-> | _]; [reflexivity |]. simpl.
  by destruct (startsWith (trim url) "https://").
Qed.

(** The ways through the first test of the constructor. *)
Lemma baseUrl_rejected_spec (baseUrl : value) (b : bool) :
  baseUrl_rejected baseUrl = Return b <->
  (truthy baseUrl = false /\ b = true)
  \/ (truthy baseUrl = true
      /\ exists t,
           call_method baseUrl "trim" [] = Return t
           /\ ((exists r, call_method t "startsWith" [VStr "https://"] = Return r
                          /\ truthy r = true /\ b = false)
               \/ (exists r r',
                     call_method t "startsWith" [VStr "https://"] = Return r
                     /\ truthy r = false
                     /\ call_method t "startsWith" [VStr "http://"] = Return r'
                     /\ b = negb (truthy r')))).
Proof.
  unfold baseUrl_rejected, trimmed_startsWith, mbind, outcome_bind. split.
  - destruct (truthy baseUrl); simpl; [| intros [= <-]; by left].
    destruct (call_method baseUrl "trim" []) as [e | t]; [done |].
    destruct (call_method t "startsWith" [VStr "https://"]) as [e | r]
      eqn:Hs; [done |].
    destruct (truthy r) eqn:Hr.
    { intros [= <-]. right. split; [done |]. exists t. split; [done |].
      left. by exists r. }
    destruct (call_method t "startsWith" [VStr "http://"]) as [e | r']
      eqn:Hp; [done |].
    intros [= <-]. right. split; [done |]. exists t. split; [done |].
    right. exists r, r'. done.
  - intros [[Ht ->] | (Ht & t & Htrim & Hcase)]; rewrite Ht; simpl; [done |].
    rewrite Htrim.
    destruct Hcase as [(r & Hr & Hb & ->) | (r & r' & Hr & Hb & Hr' & ->)].
    + by rewrite Hr, Hb.
    + by rewrite Hr, Hb, Hr'.
Qed.

Lemma check_baseUrl_Return (baseUrl : value) :
  check_baseUrl baseUrl = Return tt <-> baseUrl_rejected baseUrl = Return false.
Proof.
  unfold check_baseUrl, mbind, outcome_bind.
  destruct (baseUrl_rejected baseUrl) as [e | []]; naive_solver.
Qed.

Lemma new_AgnostClient_Return (baseUrl apiKey : value)
    (opts : option ClientOptions) (h : heap) (c : AgnostClient) (h' : heap) :
  new_AgnostClient baseUrl apiKey opts h = Return (c, h') ->
  check_baseUrl baseUrl = Return tt
  /\ check_apiKey apiKey = Return tt
  /\ settings c = merge_settings opts
  /\ storageManager c = None.
Proof.
  unfold new_AgnostClient, mbind, outcome_bind.
  destruct (check_baseUrl baseUrl) as [e | []]; [done |].
  destruct (check_apiKey apiKey) as [e | []]; [done |].
  simpl. intros [= <- _]. eauto.
Qed.

(** C5. In a constructed client, every realtime option that the caller
    supplied has the supplied value, and every option left out has its
    default: [autoJoinChannels], [echoMessages] and [bufferMessages] are
    [true], [reconnectionDelay] is 1000 and [timeout] is 20000. *)
Theorem realtime_defaults_and_overrides (baseUrl apiKey : value)
    (opts : option ClientOptions) (h : heap) (c : AgnostClient) (h' : heap) :
  new_AgnostClient baseUrl apiKey opts h = Return (c, h') ->
  let given : gmap string value := default ∅ (opts ≫= co_realtime) in
  let effective := st_realtime (settings c) in
  (forall k v, given !! k = Some v -> effective !! k = Some v)
  /\ (given !! "autoJoinChannels" = None ->
      effective !! "autoJoinChannels" = Some (VBool true))
  /\ (given !! "echoMessages" = None ->
      effective !! "echoMessages" = Some (VBool true))
  /\ (given !! "reconnectionDelay" = None ->
      effective !! "reconnectionDelay" = Some (VNum 1000))
  /\ (given !! "timeout" = None -> effective !! "timeout" = Some (VNum 20000))
  /\ (given !! "bufferMessages" = None ->
      effective !! "bufferMessages" = Some (VBool true)).
Proof.
  intros (_ & _ & -> & _)%new_AgnostClient_Return. simpl. unfold spread.
  split; [intros k v Hk; by apply lookup_union_Some_l |].
  repeat split; intros Hk; rewrite lookup_union_r by done; reflexivity.
Qed.

(** C9. The constructor throws [missing_required_value] for a [baseUrl] that
    is absent or empty, or whose trimmed value starts with neither
    [https://] nor [http://] (a string, or whatever its [trim] method
    returns); with a [baseUrl] that passes this test and once
    [checkRequired] has let the key through, it throws [invalid_client_key]
    for an [apiKey] that is not a string; and when it returns, the [baseUrl]
    passed the test (a string one is not empty and starts, once trimmed,
    with one of the two schemes), [checkRequired] let the key through and
    the key is a string. *)
Theorem constructor_checks_arguments (baseUrl apiKey : value)
    (opts : option ClientOptions) (h : heap) :
  let missing :=
    ClientError "missing_required_value"
      "baseUrl is a required parameter and needs to start with http(s)://" in
  let invalid :=
    ClientError "invalid_client_key" "apiKey needs to be a valid key string" in
  let starts (t : value) (prefix : string) (b : bool) :=
    exists r,
      call_method t "startsWith" [VStr prefix] = Return r /\ truthy r = b in
  let passes :=
    truthy baseUrl = true
    /\ exists t,
         call_method baseUrl "trim" [] = Return t
         /\ (starts t "https://" true
             \/ (starts t "https://" false /\ starts t "http://" true)) in
  (truthy baseUrl = false
   \/ (exists url, baseUrl = VStr url
                   /\ startsWith (trim url) "https://" = false
                   /\ startsWith (trim url) "http://" = false)
   \/ (exists t, call_method baseUrl "trim" [] = Return t
                 /\ starts t "https://" false /\ starts t "http://" false) ->
   new_AgnostClient baseUrl apiKey opts h = Throw missing)
  /\ (passes -> checkRequired "apiKey" apiKey = None ->
      typeof apiKey <> "string" ->
      new_AgnostClient baseUrl apiKey opts h = Throw invalid)
  /\ (forall c h',
        new_AgnostClient baseUrl apiKey opts h = Return (c, h') ->
        passes
        /\ (forall url,
              baseUrl = VStr url ->
              url <> ""
              /\ (startsWith (trim url) "https://" = true
                  \/ startsWith (trim url) "http://" = true))
        /\ checkRequired "apiKey" apiKey = None
        /\ typeof apiKey = "string").
Proof.
  simpl.
  assert (Hpasses :
    (truthy baseUrl = true
     /\ exists t,
          call_method baseUrl "trim" [] = Return t
          /\ ((exists r, call_method t "startsWith" [VStr "https://"] = Return r
                         /\ truthy r = true)
              \/ ((exists r, call_method t "startsWith" [VStr "https://"] = Return r
                             /\ truthy r = false)
                  /\ (exists r, call_method t "startsWith" [VStr "http://"] = Return r
                                /\ truthy r = true))))
    <-> baseUrl_rejected baseUrl = Return false).
  { rewrite baseUrl_rejected_spec. split.
    - intros (Ht & t & Htrim & Hcase). right. split; [done |].
      exists t. split; [done |].
      destruct Hcase as [(r & Hr & Hb) | [(r & Hr & Hb) (r' & Hr' & Hb')]].
      + left. eauto.
      + right. exists r, r'. by rewrite Hb'.
    - intros [[_ ?] | (Ht & t & Htrim & Hcase)]; [done |].
      split; [done |]. exists t. split; [done |].
      destruct Hcase as [(r & Hr & Hb & _) | (r & r' & Hr & Hb & Hr' & Hb')].
      + left. eauto.
      + right. split; [eauto |]. exists r'. split; [done |].
        by destruct (truthy r'). }
  assert (Hmissing : baseUrl_rejected baseUrl = Return true ->
            new_AgnostClient baseUrl apiKey opts h
            = Throw (ClientError "missing_required_value"
                       "baseUrl is a required parameter and needs to start with http(s)://")).
  { intros Hr. unfold new_AgnostClient, check_baseUrl. by rewrite Hr. }
  split_and!.
  - intros [Hfalsy | [(url & -> & Hs & Hp) | (t & Htrim & Hs & Hp)]];
      apply Hmissing.
    + apply baseUrl_rejected_spec. by left.
    + rewrite baseUrl_rejected_string. unfold valid_baseUrl.
      by rewrite Hs, Hp.
    + destruct (truthy baseUrl) eqn:Ht; apply baseUrl_rejected_spec;
        [right | by left].
      split; [done |]. exists t. split; [done |]. right.
      destruct Hs as (r & Hr & Hb), Hp as (r' & Hr' & Hb').
      exists r, r'. by rewrite Hb'.
  - intros Hok%Hpasses%check_baseUrl_Return Hreq Htype.
    unfold new_AgnostClient. rewrite Hok. simpl.
    unfold check_apiKey. rewrite Hreq.
    destruct (String.eqb_spec (typeof apiKey) "string"); done.
  - intros c h' (Hurl%check_baseUrl_Return & Hkey & _)%new_AgnostClient_Return.
    split_and!.
    + by apply Hpasses.
    + by apply Hpasses.
    + intros url ->. rewrite baseUrl_rejected_string in Hurl.
      unfold valid_baseUrl in Hurl.
      split.
      * intros ->. by vm_compute in Hurl.
      * destruct (startsWith (trim url) "https://"); [by left |].
        destruct (startsWith (trim url) "http://"); [by right | done].
    + unfold check_apiKey in Hkey.
      by destruct (checkRequired "apiKey" apiKey).
    + unfold check_apiKey in Hkey.
      destruct (checkRequired "apiKey" apiKey); [done |].
      by destruct (String.eqb_spec (typeof apiKey) "string").
Qed.

End Construction.

(** ** Managers of a client *)

Section Managers.
Import Client.

Lemma count_managers_app (k : manager) (l1 l2 : list object) :
  count_managers k (l1 ++ l2) = (count_managers k l1 + count_managers k l2)%nat.
Proof. induction l1 as [| o l1 IH]; simpl; [done |]. rewrite IH. lia. Qed.

Lemma manager_eqb_eq (k k' : manager) : manager_eqb k k' = true <-> k = k'.
Proof. destruct k, k'; simpl; split; intros; done. Qed.

(** One access: the manager returned is the one the field holds afterwards;
    a field already set is returned as it is; the other fields do not
    change; and the heap gains a manager only when the field was [null]. *)
Lemma get_spec (a : access) (c : AgnostClient) (h : heap) :
  exists m c1 news,
    get a c h = (m, c1, h ++ news)
    /\ field (kind a) c1 = Some m
    /\ (forall k, k <> kind a -> field k c1 = field k c)
    /\ (forall x, field (kind a) c = Some x -> m = x)
    /\ fetcher c1 = fetcher c
    /\ (forall k,
          count_managers k news =
          match field k c with
          | Some _ => 0%nat
          | None => if manager_eqb (kind a) k then 1%nat else 0%nat
          end).
Proof.
  destruct a; simpl; unfold auth, endpoint, storage, realtime;
    match goal with
    | |- context [match ?f c with _ => _ end] => destruct (f c) as [m |] eqn:Hf
    end.
  all: try (exists m, c, []; rewrite app_nil_r; split_and!;
            [done | done | done | by intros x [= ->] | done
            | intros k; destruct (field k c) eqn:Hk; [done |];
                destruct k; simpl in *; congruence || done]).
  all: eexists _, _, [_]; split_and!;
    [reflexivity | reflexivity | intros k Hk; by destruct k
    | done | reflexivity
    | intros k; destruct (field k c) eqn:Hk;
        destruct k; simpl in *; congruence || done].
Qed.

Lemma get_keeps (a : access) (c : AgnostClient) (h : heap) (k : manager)
    (x : loc) :
  field k c = Some x -> field k (get a c h).1.2 = Some x.
Proof.
  intros Hk.
  destruct (get_spec a c h) as (m & c1 & news & -> & Hm & Hother & Hsame & _).
  simpl. destruct (manager_eqb k (kind a)) eqn:Heq.
  - apply manager_eqb_eq in Heq as ->. by rewrite (Hsame x Hk) in Hm.
  - rewrite Hother; [done |].
    intros ->. by rewrite (proj2 (manager_eqb_eq _ _)) in Heq.
Qed.

Lemma accesses_spec (l : list access) (c : AgnostClient) (h : heap) :
  exists rs c' news,
    accesses l c h = (rs, c', h ++ news)
    /\ (forall k x, field k c = Some x -> field k c' = Some x)
    /\ (forall a m, (a, m) ∈ rs -> field (kind a) c' = Some m)
    /\ fetcher c' = fetcher c
    /\ (forall k,
          count_managers k news =
          match field k c with
          | Some _ => 0%nat
          | None => if accessed k l then 1%nat else 0%nat
          end).
Proof.
  revert c h. induction l as [| a l IH]; intros c h.
  - exists [], c, []. rewrite app_nil_r. repeat split; try done.
    + by intros a m ?%elem_of_nil.
    + intros k. simpl. by destruct (field k c).
  - pose proof (get_keeps a c h) as Hkeep.
    destruct (get_spec a c h)
      as (m & c1 & news1 & Hget & Hm & Hother & Hsame & Hf1 & Hcount1).
    destruct (IH c1 (h ++ news1))
      as (rs & c' & news2 & Hacc & Hkeep2 & Hrs & Hf2 & Hcount2).
    exists ((a, m) :: rs), c', (news1 ++ news2).
    simpl. rewrite Hget in *. rewrite Hacc, app_assoc. simpl in Hkeep.
    repeat split.
    + intros k x Hk. by apply Hkeep2, Hkeep.
    + intros b n [[= -> ->] | Hin]%elem_of_cons; [by apply Hkeep2 | by apply Hrs].
    + congruence.
    + intros k. rewrite count_managers_app, Hcount1, Hcount2.
      destruct (field k c) as [x |] eqn:Hk.
      * by rewrite (Hkeep k x).
      * destruct (manager_eqb (kind a) k) eqn:Heq; simpl.
        -- apply manager_eqb_eq in Heq as <-. by rewrite Hm.
        -- rewrite Hother, Hk; [done |].
           intros ->. by rewrite (proj2 (manager_eqb_eq _ _)) in Heq.
Qed.

(** C8. Over any sequence of accesses to a client, in any state: the heap
    only gains objects; of each kind of manager it gains none when the
    client already held one, and otherwise exactly one if that manager was
    asked for, and none if not; and any two accesses to the same kind of
    manager return the same object. *)
Theorem managers_created_once_and_reused (l : list access) (c : AgnostClient)
    (h : heap) :
  let rs := (accesses l c h).1.1 in
  let h' := (accesses l c h).2 in
  exists news,
    h' = h ++ news
    /\ (forall k,
          count_managers k news =
          match field k c with
          | Some _ => 0%nat
          | None => if accessed k l then 1%nat else 0%nat
          end)
    /\ (forall k, (count_managers k news <= 1)%nat)
    /\ (forall a b m n,
          (a, m) ∈ rs -> (b, n) ∈ rs -> kind a = kind b -> m = n).
Proof.
  destruct (accesses_spec l c h) as (rs & c' & news & -> & _ & Hrs & _ & Hcount).
  simpl. exists news. repeat split; [done | |].
  - intros k. rewrite Hcount. destruct (field k c); [lia |].
    destruct (accessed k l); lia.
  - intros a b m n Ha Hb Hkind.
    apply Hrs in Ha, Hb. rewrite Hkind in Ha. congruence.
Qed.

End Managers.

(** ** Storage and upload *)

Section Storage.
Import Client Types.
Context `{FetcherOps}.

Lemma lookup_alloc (o : object) (h : heap) :
  (alloc o h).2 !! (alloc o h).1 = Some o.
Proof. unfold alloc. cbn [fst snd]. by apply list_lookup_middle. Qed.

Lemma storage_first (a : string) (c : AgnostClient) (h : heap) :
  storageManager c = None ->
  storage a c h =
  (length h,
   mkClient (settings c) (fetcher c) (authManager c) (epManager c)
     (Some (length h)) (realtimeManager c),
   h ++ [StorageManagerObj a (fetcher c)]).
Proof. intros Hnone. unfold storage. by rewrite Hnone. Qed.

Lemma bucket_spec (m : loc) (name : string) (h : heap) (storageName : string)
    (f : loc) :
  h !! m = Some (StorageManagerObj storageName f) ->
  bucket m name h = Some (alloc (BucketManagerObj storageName name f) h).
Proof. intros Hm. unfold bucket. by rewrite Hm. Qed.

(** What [upload] does on a bucket manager: an unsupported body is refused,
    and a supported one goes to the bucket's path under its storage. *)
Lemma upload_request (g : Globals) (b : loc) (name : string)
    (body : UploadBody) (opts : option (gmap string value)) (h : heap)
    (storageName bucketName : string) (f : loc) :
  h !! b = Some (BucketManagerObj storageName bucketName f) ->
  exists r,
    upload g b name body opts h = Some r
    /\ ((exists msg, r = Throw (ClientError "unsupported_file_format" msg))
        \/ (exists q,
              r = fetcher_post f (upload_path storageName bucketName) body q h)
        \/ (exists q cb,
              r = fetcher_upload f (upload_path storageName bucketName) body q
                    VNull cb h)).
Proof.
  intros Hb. unfold upload. rewrite Hb. eexists. split; [reflexivity |].
  destruct (_ || _); [| left; eauto].
  destruct (_ && _); right; [right | left]; eauto.
Qed.

(** C10. On a client that holds no storage manager yet, the first call
    [storage(a)] creates the manager; whatever is accessed afterwards, any
    later call [storage(b)] returns that same manager, still bound to [a];
    and every bucket manager it hands out is bound to [a] and uploads to
    [/storage/a/bucket/name/upload-formdata]. *)
Theorem storage_name_fixed_by_first_call (c : AgnostClient) (h : heap)
    (a b : string) (l : list access) :
  storageManager c = None ->
  let first := storage a c h in
  let between := accesses l first.1.2 first.2 in
  let later := storage b between.1.2 between.2 in
  later.1.1 = first.1.1
  /\ later.2 !! later.1.1 = Some (StorageManagerObj a (fetcher c))
  /\ forall name,
       exists bm h4,
         bucket later.1.1 name later.2 = Some (bm, h4)
         /\ h4 !! bm = Some (BucketManagerObj a name (fetcher c))
         /\ forall g fileName body opts,
              exists r,
                upload g bm fileName body opts h4 = Some r
                /\ ((exists msg,
                       r = Throw (ClientError "unsupported_file_format" msg))
                    \/ (exists q,
                          r = fetcher_post (fetcher c) (upload_path a name)
                                body q h4)
                    \/ (exists q cb,
                          r = fetcher_upload (fetcher c) (upload_path a name)
                                body q VNull cb h4)).
Proof.
  intros Hnone. cbv zeta. rewrite (storage_first a c h Hnone). cbn [fst snd].
  set (c1 := mkClient _ _ _ _ _ _). set (h1 := h ++ [_]).
  destruct (accesses_spec l c1 h1) as (rs & c2 & news & -> & Hkeep & _ & _ & _).
  cbn [fst snd]. unfold storage.
  rewrite (Hkeep StorageK (length h) eq_refl : storageManager c2 = _).
  cbn [fst snd].
  assert (Hm : (h1 ++ news) !! length h = Some (StorageManagerObj a (fetcher c))).
  { unfold h1. rewrite <- app_assoc. by apply list_lookup_middle. }
  split; [done |]. split; [done |].
  intros name. eexists _, _. rewrite (bucket_spec _ name _ _ _ Hm).
  split; [reflexivity |].
  pose proof (lookup_alloc (BucketManagerObj a name (fetcher c)) (h1 ++ news))
    as Hb.
  split; [exact Hb |].
  intros g fileName body opts. by apply upload_request.
Qed.







End Storage.

(** ** What the constructor leaves behind *)

Section Constructed.
Import Client Derived.
Context `{Helpers}.

Lemma setSession_fresh (h : heap) (url : string) (hd : gmap string value)
    (s0 s : value) (rest : list object) :
  setSession (length h) s (h ++ FetcherObj url hd s0 :: rest)
  = h ++ FetcherObj url hd s :: rest.
Proof.
  unfold setSession, heap. rewrite list_lookup_middle by done.
  rewrite insert_app_r_alt by done. by rewrite Nat.sub_diag.
Qed.

(** The constructor, step by step: the checks, the fetcher, the auth
    manager that [this.auth] creates, and the session set on the fetcher. *)
Lemma new_AgnostClient_steps (baseUrl apiKey : value)
    (opts : option ClientOptions) (h : heap) (c : AgnostClient) (h' : heap) :
  new_AgnostClient baseUrl apiKey opts h = Return (c, h') ->
  c = mkClient (merge_settings opts) (length h) (Some (S (length h)))
        None None None
  /\ h' = setSession (length h) (getSession (merge_settings opts))
            (h ++ [FetcherObj (normalizeUrl baseUrl) (default_headers apiKey)
                     VUndefined;
                   AuthManagerObj (length h) (merge_settings opts)]).
Proof.
  unfold new_AgnostClient, mbind, outcome_bind.
  destruct (check_baseUrl baseUrl) as [e | []]; [done |].
  destruct (check_apiKey apiKey) as [e | []]; [done |].
  unfold auth, alloc. simpl. rewrite length_app. simpl.
  rewrite <- app_assoc, Nat.add_1_r. simpl.
  by intros [= <- <-].
Qed.

(** X1. A constructor that returns leaves a client with the merged
    settings, and in the heap, after what was there, exactly two new
    objects: the fetcher, with what [normalizeUrl] made of the [baseUrl] as
    given, the two headers [X-Client: agnost-js] and
    [Authorization: apiKey], and the session read back by the auth manager;
    and the auth manager, holding that fetcher and the settings. The three
    other managers are [null]. *)
Theorem constructor_leaves_fetcher_and_auth (baseUrl apiKey : value)
    (opts : option ClientOptions) (h : heap) (c : AgnostClient) (h' : heap) :
  new_AgnostClient baseUrl apiKey opts h = Return (c, h') ->
  c = mkClient (merge_settings opts) (length h) (Some (S (length h)))
        None None None
  /\ h' = h ++ [FetcherObj (normalizeUrl baseUrl) (default_headers apiKey)
                  (getSession (merge_settings opts));
                AuthManagerObj (length h) (merge_settings opts)]
  /\ default_headers apiKey !! "Authorization" = Some apiKey
  /\ default_headers apiKey !! "X-Client" = Some (VStr "agnost-js")
  /\ dom (default_headers apiKey) = {["Authorization"; "X-Client"]}.
Proof.
  intros (-> & ->)%new_AgnostClient_steps.
  rewrite setSession_fresh. by split_and!.
Qed.

Lemma well_formed_extend (c : AgnostClient) (h news : heap) :
  well_formed c h -> well_formed c (h ++ news).
Proof.
  intros [(url & hd & s & Hf) Hm]. split.
  - exists url, hd, s. by apply lookup_app_l_Some.
  - intros k m Hk. destruct (Hm k m Hk) as (o & Ho & ?).
    exists o. split; [by apply lookup_app_l_Some | done].
Qed.

Lemma constructor_well_formed (baseUrl apiKey : value)
    (opts : option ClientOptions) (h : heap) (c : AgnostClient) (h' : heap) :
  new_AgnostClient baseUrl apiKey opts h = Return (c, h') ->
  well_formed c h' /\ fetcher c = length h /\ settings c = merge_settings opts.
Proof.
  intros (-> & ->)%new_AgnostClient_steps.
  rewrite setSession_fresh. simpl. split; [| done]. split; simpl.
  - eexists _, _, _. by apply list_lookup_middle.
  - intros k m Hk. destruct k; simpl in Hk; try done.
    injection Hk as <-. eexists. split.
    + unfold heap. rewrite lookup_app_r by lia.
      by replace (S (length h) - length h)%nat with 1%nat by lia.
    + split_and!; try done. by intros st [= <-].
Qed.

End Constructed.

(** ** Who owns what *)

Section Ownership.
Import Client Derived.
Context `{Helpers}.

(** One access either returns what the field holds and changes nothing, or
    finds the field [null], allocates a manager of the kind asked for with
    the client's fetcher and settings, and stores it. *)
Lemma get_cases (a : access) (c : AgnostClient) (h : heap) :
  (exists m, field (kind a) c = Some m /\ get a c h = (m, c, h))
  \/ (field (kind a) c = None
      /\ exists o c1,
           get a c h = (length h, c1, h ++ [o])
           /\ is_manager (kind a) o = true
           /\ object_fetcher o = Some (fetcher c)
           /\ (forall st, object_settings o = Some st -> st = settings c)
           /\ fetcher c1 = fetcher c
           /\ settings c1 = settings c
           /\ field (kind a) c1 = Some (length h)
           /\ forall k, k <> kind a -> field k c1 = field k c).
Proof.
  destruct a; simpl; unfold auth, endpoint, storage, realtime;
    match goal with
    | |- context [match ?f c with _ => _ end] => destruct (f c) as [m |] eqn:Hf
    end;
    try (left; by exists m);
    right; (split; [done |]); eexists _, _; split_and!;
      try done; try (by intros st [= <-]); by intros [].
Qed.

Lemma get_well_formed (a : access) (c : AgnostClient) (h : heap) :
  well_formed c h ->
  well_formed (get a c h).1.2 (get a c h).2
  /\ fetcher (get a c h).1.2 = fetcher c
  /\ settings (get a c h).1.2 = settings c.
Proof.
  intros Hwf.
  destruct (get_cases a c h)
    as [(m & _ & ->)
       | (Hnone & o & c1 & -> & Hkind & Hfetch & Hset & Hf & Hs & Hnew & Hold)];
    [done |].
  simpl. split; [| done].
  pose proof (well_formed_extend c h [o] Hwf) as [Hfetcher Hfields].
  split; [by rewrite Hf |].
  intros k m Hk. destruct (manager_eqb k (kind a)) eqn:Heq.
  - apply manager_eqb_eq in Heq as ->. rewrite Hnew in Hk. injection Hk as <-.
    exists o. split; [by apply list_lookup_middle |].
    by rewrite Hf, Hs.
  - assert (k <> kind a) as Hne.
    { intros ->. by rewrite (proj2 (manager_eqb_eq _ _)) in Heq. }
    rewrite (Hold k Hne) in Hk. rewrite Hf, Hs. by apply Hfields.
Qed.

Lemma accesses_well_formed (l : list access) (c : AgnostClient) (h : heap) :
  well_formed c h ->
  well_formed (accesses l c h).1.2 (accesses l c h).2
  /\ fetcher (accesses l c h).1.2 = fetcher c
  /\ settings (accesses l c h).1.2 = settings c.
Proof.
  revert c h. induction l as [| a l IH]; intros c h Hwf; [done |].
  destruct (get_well_formed a c h Hwf) as (Hwf1 & Hf1 & Hs1).
  simpl. destruct (get a c h) as [[m c1] h1]. simpl in *.
  destruct (IH c1 h1 Hwf1) as (Hwf2 & Hf2 & Hs2).
  destruct (accesses l c1 h1) as [[rs c2] h2]. simpl in *.
  split; [done |]. split; congruence.
Qed.

(** X2. Of the four managers only the auth manager predates the first
    access to a constructed client: whatever is accessed, [auth] returns the
    manager the constructor created and no auth manager is allocated, while
    each of the three others is allocated exactly once if it is asked for
    and not at all otherwise. *)
Theorem auth_manager_predates_accesses (baseUrl apiKey : value)
    (opts : option ClientOptions) (h0 : heap) (c : AgnostClient) (h : heap)
    (l : list access) :
  new_AgnostClient baseUrl apiKey opts h0 = Return (c, h) ->
  exists a0,
    authManager c = Some a0
    /\ h !! a0 = Some (AuthManagerObj (fetcher c) (settings c))
    /\ (forall m, (Auth, m) ∈ (accesses l c h).1.1 -> m = a0)
    /\ exists news,
         (accesses l c h).2 = h ++ news
         /\ count_managers AuthK news = 0%nat
         /\ forall k,
              k <> AuthK ->
              count_managers k news = if accessed k l then 1%nat else 0%nat.
Proof.
  intros (-> & ->)%new_AgnostClient_steps.
  rewrite setSession_fresh. simpl.
  exists (S (length h0)). split; [done |]. split.
  { unfold heap. rewrite lookup_app_r by lia.
    by replace (S (length h0) - length h0)%nat with 1%nat by lia. }
  match goal with |- context [accesses l ?c ?h] =>
    destruct (accesses_spec l c h)
      as (rs & c' & news & -> & Hkeep & Hrs & _ & Hcount)
  end.
  simpl. split.
  - intros m Hm%Hrs. simpl in Hm.
    pose proof (Hkeep AuthK (S (length h0)) eq_refl) as Ha. simpl in Ha.
    congruence.
  - exists news. split; [done |]. split; [by rewrite Hcount |].
    intros k Hk. rewrite Hcount. by destruct k.
Qed.

(** X3. Every manager handed out by a constructed client, whatever the
    accesses, is a manager of the kind asked for, holds the client's one
    fetcher, and, if it takes settings (auth and realtime), holds the merged
    settings of the client; the accesses change neither the fetcher object
    nor the client's fetcher and settings. *)
Theorem managers_share_fetcher_and_settings (baseUrl apiKey : value)
    (opts : option ClientOptions) (h0 : heap) (c : AgnostClient) (h : heap)
    (l : list access) :
  new_AgnostClient baseUrl apiKey opts h0 = Return (c, h) ->
  (accesses l c h).2 !! fetcher c = h !! fetcher c
  /\ (exists url headers session,
        h !! fetcher c = Some (FetcherObj url headers session))
  /\ fetcher (accesses l c h).1.2 = fetcher c
  /\ settings (accesses l c h).1.2 = merge_settings opts
  /\ forall a m,
       (a, m) ∈ (accesses l c h).1.1 ->
       exists o,
         (accesses l c h).2 !! m = Some o
         /\ is_manager (kind a) o = true
         /\ object_fetcher o = Some (fetcher c)
         /\ forall st, object_settings o = Some st -> st = merge_settings opts.
Proof.
  intros (Hwf & _ & Hst)%constructor_well_formed.
  destruct (accesses_well_formed l c h Hwf) as ([_ Hfields] & Hf & Hs).
  destruct (accesses_spec l c h) as (rs & c' & news & Hacc & _ & Hrs & _ & _).
  rewrite Hacc in *. simpl in *.
  destruct Hwf as [(url & hd & s & Hfetcher) _].
  split_and!.
  - rewrite Hfetcher. by apply lookup_app_l_Some.
  - by exists url, hd, s.
  - done.
  - congruence.
  - intros a m Hin. destruct (Hfields _ _ (Hrs a m Hin)) as (o & ? & ? & ? & Hset).
    exists o. split_and!; try done; [congruence |].
    intros st Hst'. rewrite (Hset st Hst'). congruence.
Qed.

(** With two clients in one heap, every manager an access returns holds
    the fetcher of the client that was asked. *)
Lemma accesses2_owner (l : list (bool * access)) (c1 c2 : AgnostClient)
    (h : heap) :
  well_formed c1 h -> well_formed c2 h ->
  exists rs d1 d2 news,
    accesses2 l c1 c2 h = (rs, d1, d2, h ++ news)
    /\ forall (b : bool) m,
         (b, m) ∈ rs ->
         exists o,
           (h ++ news) !! m = Some o
           /\ object_fetcher o = Some (fetcher (if b then c1 else c2)).
Proof.
  revert c1 c2 h.
  induction l as [| [[|] a] l IH]; intros c1 c2 h Hwf1 Hwf2.
  - exists [], c1, c2, []. rewrite app_nil_r. split; [done |].
    by intros b m ?%elem_of_nil.
  - destruct (get_well_formed a c1 h Hwf1) as (Hwf1' & Hf1 & _).
    destruct (get_spec a c1 h) as (m1 & c1' & news & Hget & Hm1 & _).
    rewrite Hget in *. simpl in *.
    destruct (IH c1' c2 (h ++ news) Hwf1' (well_formed_extend c2 h news Hwf2))
      as (rs & d1 & d2 & news' & Hacc & Hrs).
    exists ((true, m1) :: rs), d1, d2, (news ++ news').
    rewrite Hget, Hacc, app_assoc. split; [done |].
    intros b m [[= -> ->] | Hin]%elem_of_cons.
    + destruct Hwf1' as [_ Hfields].
      destruct (Hfields _ _ Hm1) as (o & Ho & _ & Hfo & _).
      exists o. split; [by apply lookup_app_l_Some | congruence].
    + destruct (Hrs b m Hin) as (o & Ho & Hfo). exists o.
      split; [done |]. destruct b; congruence.
  - destruct (get_well_formed a c2 h Hwf2) as (Hwf2' & Hf2 & _).
    destruct (get_spec a c2 h) as (m2 & c2' & news & Hget & Hm2 & _).
    rewrite Hget in *. simpl in *.
    destruct (IH c1 c2' (h ++ news) (well_formed_extend c1 h news Hwf1) Hwf2')
      as (rs & d1 & d2 & news' & Hacc & Hrs).
    exists ((false, m2) :: rs), d1, d2, (news ++ news').
    rewrite Hget, Hacc, app_assoc. split; [done |].
    intros b m [[= -> ->] | Hin]%elem_of_cons.
    + destruct Hwf2' as [_ Hfields].
      destruct (Hfields _ _ Hm2) as (o & Ho & _ & Hfo & _).
      exists o. split; [by apply lookup_app_l_Some | congruence].
    + destruct (Hrs b m Hin) as (o & Ho & Hfo). exists o.
      split; [done |]. destruct b; congruence.
Qed.

(** X4. Two clients constructed one after the other share no manager: in
    any interleaving of accesses to the two, a manager returned by the first
    client is never one returned by the second, and each holds the fetcher
    of its own client, the two fetchers being different objects. *)
Theorem two_clients_share_no_manager (b1 k1 b2 k2 : value)
    (o1 o2 : option ClientOptions) (h0 h1 h2 : heap) (c1 c2 : AgnostClient)
    (l : list (bool * access)) :
  new_AgnostClient b1 k1 o1 h0 = Return (c1, h1) ->
  new_AgnostClient b2 k2 o2 h1 = Return (c2, h2) ->
  fetcher c1 <> fetcher c2
  /\ forall m n,
       (true, m) ∈ (accesses2 l c1 c2 h2).1.1.1 ->
       (false, n) ∈ (accesses2 l c1 c2 h2).1.1.1 ->
       m <> n.
Proof.
  intros Hnew1 Hnew2.
  pose proof Hnew1 as (Hwf1 & Hf1 & _)%constructor_well_formed.
  pose proof Hnew2 as (Hwf2 & Hf2 & _)%constructor_well_formed.
  apply new_AgnostClient_steps in Hnew1 as (_ & Hh1).
  apply new_AgnostClient_steps in Hnew2 as (_ & Hh2).
  rewrite setSession_fresh in Hh1, Hh2.
  assert (Hne : fetcher c1 <> fetcher c2).
  { rewrite Hf1, Hf2, Hh1, length_app. simpl. lia. }
  split; [done |].
  assert (Hwf1' : well_formed c1 h2).
  { rewrite Hh2. by apply well_formed_extend. }
  destruct (accesses2_owner l c1 c2 h2 Hwf1' Hwf2)
    as (rs & d1 & d2 & news & -> & Hrs).
  simpl. intros m n Hm Hn ->.
  destruct (Hrs _ _ Hm) as (o & Ho & Hfo), (Hrs _ _ Hn) as (o' & Ho' & Hfo').
  congruence.
Qed.

End Ownership.

(** ** Buckets and upload requests *)

Section Requests.
Import Client Derived.
Context `{Helpers} `{FetcherOps}.

(** X5. [bucket] is not cached: on a storage manager, two calls, with the
    same name or not, both succeed and return two different bucket
    managers, each bound to the storage name of the manager, to the name
    given and to the manager's fetcher; what the heap held stays. *)
Theorem bucket_managers_are_fresh (m : loc) (h : heap) (storageName : string)
    (f : loc) (n1 n2 : string) :
  h !! m = Some (StorageManagerObj storageName f) ->
  exists b1 h1 b2 h2,
    bucket m n1 h = Some (b1, h1)
    /\ bucket m n2 h1 = Some (b2, h2)
    /\ b1 <> b2
    /\ h2 !! b1 = Some (BucketManagerObj storageName n1 f)
    /\ h2 !! b2 = Some (BucketManagerObj storageName n2 f)
    /\ forall i o, h !! i = Some o -> h2 !! i = Some o.
Proof.
  intros Hm.
  assert (Hm1 : (h ++ [BucketManagerObj storageName n1 f]) !! m
                = Some (StorageManagerObj storageName f))
    by (by apply lookup_app_l_Some).
  eexists _, _, _, _.
  rewrite (bucket_spec _ n1 _ _ _ Hm). unfold alloc at 1.
  split; [reflexivity |].
  rewrite (bucket_spec _ n2 _ _ _ Hm1). unfold alloc.
  split; [reflexivity |]. rewrite length_app. simpl.
  split; [lia |]. split; [| split].
  - apply lookup_app_l_Some. by apply list_lookup_middle.
  - apply list_lookup_middle. rewrite length_app. simpl. lia.
  - intros i o Hi. by do 2 apply lookup_app_l_Some.
Qed.

(** What [upload] does with a body it accepts. *)
Lemma upload_accepted (g : Globals) (b : loc) (name : string)
    (body : UploadBody) (opts : option (gmap string value)) (h : heap)
    (storageName bucketName : string) (f : loc) :
  h !! b = Some (BucketManagerObj storageName bucketName f) ->
  accepts g body = true ->
  upload g b name body opts h =
  Some (if has_XMLHttpRequest g && truthy (onProgress_of opts)
        then fetcher_upload f (upload_path storageName bucketName) body
               (upload_query name opts) VNull (onProgress_of opts) h
        else fetcher_post f (upload_path storageName bucketName) body
               (upload_query name opts) h).
Proof.
  intros Hb Hacc. unfold upload. rewrite Hb.
  unfold accepts in Hacc. by rewrite Hacc.
Qed.

Lemma upload_refused (g : Globals) (b : loc) (name : string)
    (body : UploadBody) (opts : option (gmap string value)) (h : heap)
    (storageName bucketName : string) (f : loc) :
  h !! b = Some (BucketManagerObj storageName bucketName f) ->
  accepts g body = false ->
  upload g b name body opts h = Some (Throw unsupported_file_format).
Proof.
  intros Hb Hacc. unfold upload. rewrite Hb.
  unfold accepts in Hacc. by rewrite Hacc.
Qed.

(** X6. [upload] accepts a [FormData] where [FormData] exists, a [Blob]
    where [Blob] exists, and a [File] where [Blob] or [File] exists; every
    other call is refused with [unsupported_file_format]: any other value
    (a string, a buffer, a plain object) in every environment, and every
    body in an environment that has none of the three classes. *)
Theorem upload_refuses_what_it_cannot_send (g : Globals) (b : loc)
    (name : string) (body : UploadBody) (opts : option (gmap string value))
    (h : heap) (storageName bucketName : string) (f : loc) :
  h !! b = Some (BucketManagerObj storageName bucketName f) ->
  (accepts g body = true <->
   (body = FormDataBody /\ has_FormData g = true)
   \/ (body = BlobBody /\ has_Blob g = true)
   \/ (body = FileBody /\ (has_Blob g = true \/ has_File g = true)))
  /\ (accepts g body = false ->
      upload g b name body opts h = Some (Throw unsupported_file_format))
  /\ (forall v,
        upload g b name (OtherBody v) opts h
        = Some (Throw unsupported_file_format))
  /\ (has_FormData g = false -> has_Blob g = false -> has_File g = false ->
      upload g b name body opts h = Some (Throw unsupported_file_format)).
Proof.
  intros Hb. split_and!.
  - unfold accepts.
    destruct body, (has_FormData g), (has_Blob g), (has_File g); simpl;
      naive_solver.
  - by apply (upload_refused _ _ _ _ _ _ _ _ _ Hb).
  - intros v. apply (upload_refused _ _ _ _ _ _ _ _ _ Hb).
    unfold accepts. simpl. by rewrite !andb_false_r.
  - intros Hfd Hbl Hfi. apply (upload_refused _ _ _ _ _ _ _ _ _ Hb).
    unfold accepts. by rewrite Hfd, Hbl, Hfi.
Qed.

(** X7. For a body it accepts, [upload] sends one request to the bucket's
    path: with the progress callback, as a separate argument and with
    [null] headers, exactly when [XMLHttpRequest] exists and
    [options.onProgress] is truthy, and a plain post otherwise. Either way
    the query carries the file name and the options, in which [onProgress]
    is always [undefined], [upsert] is [false] unless the caller gave it,
    every other option of the caller is passed on as given, and nothing
    else appears. *)
Theorem upload_sends_one_request (g : Globals) (b : loc) (name : string)
    (body : UploadBody) (opts : option (gmap string value)) (h : heap)
    (storageName bucketName : string) (f : loc) :
  h !! b = Some (BucketManagerObj storageName bucketName f) ->
  accepts g body = true ->
  let given : gmap string value := default ∅ opts in
  let q := upload_query name opts in
  upload g b name body opts h =
  Some (if has_XMLHttpRequest g && truthy (onProgress_of opts)
        then fetcher_upload f (upload_path storageName bucketName) body q
               VNull (onProgress_of opts) h
        else fetcher_post f (upload_path storageName bucketName) body q h)
  /\ fileName q = name
  /\ options q !! "onProgress" = Some VUndefined
  /\ (forall k v,
        k <> "onProgress" -> given !! k = Some v -> options q !! k = Some v)
  /\ (given !! "upsert" = None -> options q !! "upsert" = Some (VBool false))
  /\ (forall k,
        k <> "onProgress" -> k <> "upsert" -> given !! k = None ->
        options q !! k = None).
Proof.
  intros Hb Hacc. simpl. split; [by apply upload_accepted |].
  unfold spread, DEFAULT_FILE_OPTIONS. split_and!; [done | | | |].
  - apply lookup_insert_eq.
  - intros k v Hk Hv. rewrite lookup_insert_ne by done.
    by apply lookup_union_Some_l.
  - intros Hu. rewrite lookup_insert_ne by done.
    rewrite lookup_union_r by done. apply lookup_insert_eq.
  - intros k Hk Hu Hnone. rewrite lookup_insert_ne by done.
    rewrite lookup_union_r by done. by rewrite lookup_insert_ne.
Qed.

(** X8. [client.storage(s).bucket(b).upload(...)] on a constructed client
    that has no storage manager yet: storage and bucket managers are
    created, and for an accepted body the request goes to
    [/storage/s/bucket/b/upload-formdata] through the client's own fetcher,
    the object that carries the API key and the session. *)
Theorem upload_through_client (baseUrl apiKey : value)
    (copts : option ClientOptions) (h0 : heap) (c : AgnostClient) (h : heap)
    (s b : string) (g : Globals) (name : string) (body : UploadBody)
    (opts : option (gmap string value)) :
  new_AgnostClient baseUrl apiKey copts h0 = Return (c, h) ->
  accepts g body = true ->
  let st := storage s c h in
  exists bm h',
    bucket st.1.1 b st.2 = Some (bm, h')
    /\ h' !! fetcher c
       = Some (FetcherObj (normalizeUrl baseUrl) (default_headers apiKey)
                 (getSession (merge_settings copts)))
    /\ upload g bm name body opts h' =
       Some (if has_XMLHttpRequest g && truthy (onProgress_of opts)
             then fetcher_upload (fetcher c) (upload_path s b) body
                    (upload_query name opts) VNull (onProgress_of opts) h'
             else fetcher_post (fetcher c) (upload_path s b) body
                    (upload_query name opts) h').
Proof.
  intros (-> & ->)%new_AgnostClient_steps Hacc.
  rewrite setSession_fresh. rewrite storage_first by done. simpl.
  set (F := FetcherObj _ _ _). set (A := AuthManagerObj _ _).
  set (S := StorageManagerObj _ _).
  assert (Hs : ((h0 ++ [F; A]) ++ [S]) !! length (h0 ++ [F; A]) = Some S)
    by (by apply list_lookup_middle).
  eexists _, _.
  rewrite (bucket_spec _ b _ _ _ Hs). unfold alloc.
  split; [reflexivity |]. split.
  - do 2 apply lookup_app_l_Some. by apply list_lookup_middle.
  - apply upload_accepted; [| done]. by apply list_lookup_middle.
Qed.

End Requests.

(** ** The public operations and what they hand back *)

Section Operations.
Import Types Client Derived.
Context `{Helpers} `{FetcherOps}.



End Operations.

(** ** Strings: the [baseUrl] test and the upload path *)

Section Strings.
Import Client Derived.

Lemma app_String (a : ascii) (s t : string) :
  String a s +:+ t = String a (s +:+ t).
Proof. reflexivity. Qed.

Lemma string_app_assoc (s t u : string) : (s +:+ t) +:+ u = s +:+ (t +:+ u).
Proof.
  induction s as [| a s IH]; [done |]. by rewrite !app_String, IH.
Qed.

Lemma string_app_nil_r (s : string) : s +:+ "" = s.
Proof. induction s as [| a s IH]; [done |]. by rewrite app_String, IH. Qed.

Lemma rev_app_spec (s t : string) : String.rev_app s t = String.rev s +:+ t.
Proof.
  revert t. induction s as [| a s IH]; intros t; [done |].
  unfold String.rev. simpl. by rewrite (IH (String a t)), (IH (String a "")),
    string_app_assoc.
Qed.

Lemma rev_String (a : ascii) (s : string) :
  String.rev (String a s) = String.rev s +:+ String a "".
Proof. unfold String.rev at 1. simpl. apply rev_app_spec. Qed.

Lemma rev_app_distr (s t : string) :
  String.rev (s +:+ t) = String.rev t +:+ String.rev s.
Proof.
  induction s as [| a s IH]; [by rewrite string_app_nil_r |].
  by rewrite app_String, !rev_String, IH, string_app_assoc.
Qed.

Lemma rev_involutive (s : string) : String.rev (String.rev s) = s.
Proof.
  induction s as [| a s IH]; [done |].
  by rewrite rev_String, rev_app_distr, IH.
Qed.

Lemma string_app_inv_tail (s1 s2 t : string) :
  s1 +:+ t = s2 +:+ t -> s1 = s2.
Proof.
  intros Heq. apply (f_equal String.rev) in Heq.
  rewrite !rev_app_distr in Heq. apply (inj _) in Heq.
  by rewrite <- (rev_involutive s1), Heq, rev_involutive.
Qed.

Lemma all_white_space_app (s t : string) :
  all_white_space (s +:+ t) = all_white_space s && all_white_space t.
Proof.
  induction s as [| a s IH]; [done |].
  rewrite app_String. simpl. by rewrite IH, andb_assoc.
Qed.

Lemma all_white_space_rev (s : string) :
  all_white_space (String.rev s) = all_white_space s.
Proof.
  induction s as [| a s IH]; [done |].
  rewrite rev_String, all_white_space_app, IH. simpl.
  by rewrite andb_true_r, andb_comm.
Qed.

(** [trimStart] removes a stretch of white space from the front. *)
Lemma trimStart_split (s : string) :
  exists w, all_white_space w = true /\ s = w +:+ trimStart s.
Proof.
  induction s as [| a s (w & Hw & Hs)]; [by exists "" |]. simpl.
  destruct (is_white_space a) eqn:Ha; [| by exists ""].
  exists (String a w). simpl. rewrite Ha, Hw, app_String. by rewrite <- Hs.
Qed.

Lemma trimStart_white (w s : string) :
  all_white_space w = true -> trimStart (w +:+ s) = trimStart s.
Proof.
  induction w as [| a w IH]; [done |].
  intros Hw. simpl in Hw. apply andb_true_iff in Hw as [Ha Hw].
  rewrite app_String. simpl. rewrite Ha. by apply IH.
Qed.

Lemma trimStart_snoc (x : string) (a : ascii) :
  is_white_space a = false ->
  trimStart (x +:+ String a "") = trimStart x +:+ String a "".
Proof.
  intros Ha. induction x as [| b x IH].
  - change ("" +:+ String a "") with (String a ""). simpl. by rewrite Ha.
  - rewrite app_String. simpl. by destruct (is_white_space b).
Qed.

(** [trimEnd] removes a stretch of white space from the back, and stops at
    the first other character. *)
Lemma trimEnd_split (s : string) :
  exists w, all_white_space w = true /\ s = trimEnd s +:+ w.
Proof.
  unfold trimEnd. destruct (trimStart_split (String.rev s)) as (w & Hw & Hs).
  exists (String.rev w). split; [by rewrite all_white_space_rev |].
  by rewrite <- rev_app_distr, <- Hs, rev_involutive.
Qed.

Lemma trimEnd_String (a : ascii) (s : string) :
  is_white_space a = false -> trimEnd (String a s) = String a (trimEnd s).
Proof.
  intros Ha. unfold trimEnd.
  by rewrite rev_String, trimStart_snoc, rev_app_distr.
Qed.

Lemma trimEnd_no_white (p rest : string) :
  no_white_space p = true -> trimEnd (p +:+ rest) = p +:+ trimEnd rest.
Proof.
  induction p as [| a p IH]; [done |]. simpl.
  intros [Ha Hp]%andb_true_iff. apply negb_true_iff in Ha.
  by rewrite !app_String, trimEnd_String, IH.
Qed.

Lemma prefix_app (p s : string) :
  String.prefix p s = true <-> exists x, s = p +:+ x.
Proof.
  revert s. induction p as [| a p IH]; intros [| b s]; simpl;
    try (split; [intros _; by eexists | done]).
  - split; [done | by intros [x Hx]].
  - destruct (ascii_dec a b) as [-> | Hne].
    + rewrite IH. split; intros [x Hx]; exists x.
      * by rewrite app_String, <- Hx.
      * rewrite app_String in Hx. by injection Hx.
    + split; [done |]. intros [x Hx]. rewrite app_String in Hx.
      by injection Hx as ->.
Qed.

(** X9. The [baseUrl] test of the constructor accepts exactly the strings
    that, after leading white space, start with [https://] or [http://]:
    white space around the URL is tolerated, the scheme must be in lower
    case, and whatever follows the scheme is not looked at. *)
Theorem valid_baseUrl_spec (url : string) :
  valid_baseUrl url = true <->
  exists w rest,
    all_white_space w = true
    /\ (url = w +:+ "https://" +:+ rest \/ url = w +:+ "http://" +:+ rest).
Proof.
  unfold valid_baseUrl, startsWith, trim. split.
  - intros Hvalid.
    destruct (trimStart_split url) as (w & Hw & Hurl).
    destruct (trimEnd_split (trimStart url)) as (w' & _ & Hend).
    exists w. apply orb_true_iff in Hvalid as [[x Hx]%prefix_app | [x Hx]%prefix_app];
      exists (x +:+ w'); (split; [done |]); [left | right];
      rewrite Hurl at 1; rewrite Hend at 1; rewrite Hx;
      by rewrite !string_app_assoc.
  - intros (w & rest & Hw & [-> | ->]); rewrite trimStart_white by done;
      apply orb_true_iff; [left | right].
    + change (trimStart ("https://" +:+ rest)) with ("https://" +:+ rest).
      rewrite trimEnd_no_white by done. apply prefix_app. eauto.
    + change (trimStart ("http://" +:+ rest)) with ("http://" +:+ rest).
      rewrite trimEnd_no_white by done. apply prefix_app. eauto.
Qed.

Lemma no_slash_split (s1 s2 r1 r2 : string) :
  no_slash s1 = true -> no_slash s2 = true ->
  s1 +:+ String "/" r1 = s2 +:+ String "/" r2 -> s1 = s2 /\ r1 = r2.
Proof.
  revert s2. induction s1 as [| a s1 IH]; intros [| b s2]; simpl.
  - intros _ _ Heq. by injection Heq.
  - intros _ [Hb _]%andb_true_iff Heq. rewrite app_String in Heq.
    injection Heq as <- _. done.
  - intros [Ha _]%andb_true_iff _ Heq. rewrite app_String in Heq.
    injection Heq as -> _. done.
  - intros [_ H1]%andb_true_iff [_ H2]%andb_true_iff Heq.
    rewrite !app_String in Heq. injection Heq as -> Heq.
    destruct (IH s2 H1 H2 Heq) as [-> ->]. done.
Qed.

(** X10. Storage and bucket names go into the upload path as they are, with
    no escaping. For storage names without a slash the path determines
    both names: two bucket managers post to the same path only if they have
    the same storage name and the same bucket name. *)
Theorem upload_path_determines_names (s1 b1 s2 b2 : string) :
  no_slash s1 = true -> no_slash s2 = true ->
  upload_path s1 b1 = upload_path s2 b2 -> s1 = s2 /\ b1 = b2.
Proof.
  intros H1 H2 Heq. unfold upload_path in Heq.
  apply (inj (String.app "/storage/")) in Heq.
  change ("/bucket/" +:+ ?x) with (String "/" ("bucket/" +:+ x)) in Heq.
  destruct (no_slash_split _ _ _ _ H1 H2 Heq) as [-> Hb].
  split; [done |].
  apply (inj (String.app "bucket/")) in Hb.
  by apply string_app_inv_tail in Hb.
Qed.

End Strings.

(** ** The order of the constructor's errors *)

Section ErrorOrder.
Import Client Derived.
Context `{Helpers}.


End ErrorOrder.

(** ** The properties on examples *)

Section Examples.
Import Client Types Realtime Derived Samples.

Example trim_example :
  trim "  http://app.example.com/env " = "http://app.example.com/env".
Proof. reflexivity. Qed.

Example valid_baseUrl_example :
  valid_baseUrl " https://app.example.com" = true
  /\ valid_baseUrl "app.example.com" = false
  /\ valid_baseUrl "   " = false.
Proof. done. Qed.

(** Joining and leaving across a disconnect. *)
Example membership_example :
  membership
    (fst (run [Join "a"; Leave "a"; Join "b"; Disconnect; Join "c"; Leave "d"]
            (init defaults)))
  = {["b"]}.
Proof. by vm_compute. Qed.



(** A presence notification of the client itself, with [echoMessages] off:
    the [onJoin] listener runs, the [on] listener of the same event does
    not. *)
Example own_presence_example :
  let s := fst (run [OnJoin (listener 1); On "member-joined" (listener 2);
                     Connect true; Opened "me"]
                  (init no_echo)) in
  let e := mkEnvelope (Some "chat_room") "member-joined" VNull "me" in
  invoked (snd (inbound e s))
  = [(System MemberJoined, 1%nat,
      mkEventData (Some "chat_room") (MemberData_value "me" VNull))].
Proof. reflexivity. Qed.

(** The scenario of the design document: joined to [chat_room], offline,
    two sends, reconnection. The transport sees the rejoin and then the two
    messages. *)
Lemma buffered_sends_replayed_example :
  transmitted (snd (run (sends_while_offline ++ [Opened "c2"]) went_offline))
  = [JoinFrame "chat_room"; SendFrame (hi "c1"); SendFrame (hi "c1")].
Proof.
  exact (proj1 (buffered_sends_replayed_in_order sends_while_offline
                  went_offline "c2" eq_refl eq_refl eq_refl)).
Defined.

(** C4, counterexample. After [disconnect()] the client is not connected
    and [bufferMessages] is on, and yet [send] fails and buffers nothing. *)
Lemma send_on_closed_client_is_not_buffered :
  conn closed <> Connected
  /\ bufferMessages (opts closed) = true
  /\ send (Some "chat_room") "msg" (VStr "hi") closed
     = (closed, [Fail not_connected])
  /\ buffer (fst (send (Some "chat_room") "msg" (VStr "hi") closed)) = [].
Proof. done. Qed.

(** A [send] in each of the four situations: offline with buffering, offline
    without, connected, and closed. *)
Lemma send_by_connection_state_example :
  (fst (send None "msg" VNull (init defaults))
   = set_buffer [mkEnvelope None "msg" VNull ""] (init defaults)
   /\ snd (send None "msg" VNull (init defaults)) = [])
  /\ (fst (send None "msg" VNull (init no_buffer)) = init no_buffer
      /\ snd (send None "msg" VNull (init no_buffer)) = [Fail not_connected])
  /\ (fst (send None "msg" VNull connected) = connected
      /\ snd (send None "msg" VNull connected)
         = [Transmit (SendFrame (mkEnvelope None "msg" VNull "c1"))])
  /\ (fst (send None "msg" VNull closed) = closed
      /\ snd (send None "msg" VNull closed) = [Fail not_connected]).
Proof.
  split; [| split; [| split]].
  - apply (proj1 (proj2 (proj2
             (send_by_connection_state None "msg" VNull (init defaults)))));
      done.
  - apply (proj1 (proj2 (proj2 (proj2
             (send_by_connection_state None "msg" VNull (init no_buffer))))));
      done.
  - apply (proj1 (send_by_connection_state None "msg" VNull connected)).
    reflexivity.
  - apply (proj1 (proj2
             (send_by_connection_state None "msg" VNull closed))).
    reflexivity.
Defined.

(** An echo with [echoMessages] off: the listener of [msg] is not called. *)
Lemma echo_suppressed_example :
  let s := fst (run [On "msg" (listener 7); Connect true; Opened "me"]
                  (init no_echo)) in
  Invoke (Custom "msg") 7 (deliver (hi "me")) ∉ snd (inbound (hi "me") s).
Proof.
  apply (echo_suppressed_presence_delivered (hi "me")); reflexivity.
Defined.



(** A client built with [timeout] and [echoMessages] given: these two are
    taken over, the other three options get their defaults. *)
Lemma realtime_defaults_and_overrides_example :
  exists c h,
    @new_AgnostClient helpers (VStr "https://app.example.com/env")
      (VStr "key") (Some partial_options) [] = Return (c, h)
    /\ st_realtime (settings c) !! "timeout" = Some (VNum 50)
    /\ st_realtime (settings c) !! "echoMessages" = Some (VBool false)
    /\ st_realtime (settings c) !! "reconnectionDelay" = Some (VNum 1000)
    /\ st_realtime (settings c) !! "autoJoinChannels" = Some (VBool true)
    /\ st_realtime (settings c) !! "bufferMessages" = Some (VBool true).
Proof.
  eexists _, _. split; [reflexivity |].
  destruct (@realtime_defaults_and_overrides helpers
              (VStr "https://app.example.com/env") (VStr "key")
              (Some partial_options) [] _ _ eq_refl)
    as (Hgiven & Hjoin & _ & Hdelay & _ & Hbuffer).
  split_and!; [by apply Hgiven | by apply Hgiven | by apply Hdelay
              | by apply Hjoin | by apply Hbuffer].
Defined.

(** A [baseUrl] with another scheme, a numeric [apiKey], and an object
    whose [trim] returns a text without scheme. *)
Lemma constructor_checks_arguments_example :
  @new_AgnostClient helpers (VStr "ftp://app.example.com") (VStr "key") None []
  = Throw (ClientError "missing_required_value"
             "baseUrl is a required parameter and needs to start with http(s)://")
  /\ @new_AgnostClient helpers (VStr " http://app.example.com ") (VNum 5) None []
     = Throw (ClientError "invalid_client_key"
                "apiKey needs to be a valid key string")
  /\ @new_AgnostClient helpers (VObj [("trim", VFun 2)]) (VStr "key") None []
     = Throw (ClientError "missing_required_value"
                "baseUrl is a required parameter and needs to start with http(s)://").
Proof.
  split; [| split].
  - apply (proj1 (@constructor_checks_arguments helpers
                    (VStr "ftp://app.example.com") (VStr "key") None [])).
    right. left. eexists. split; [reflexivity |]. split; reflexivity.
  - apply (proj1 (proj2 (@constructor_checks_arguments helpers
                           (VStr " http://app.example.com ") (VNum 5) None []))).
    + split; [reflexivity |]. eexists. split; [reflexivity |].
      right. split; eexists; split; reflexivity.
    + reflexivity.
    + done.
  - apply (proj1 (@constructor_checks_arguments helpers
                    (VObj [("trim", VFun 2)]) (VStr "key") None [])).
    right. right. eexists. split; [reflexivity |].
    split; eexists; split; reflexivity.
Defined.

(** The first test of the constructor does not ask for a string: an object
    whose [trim] returns a URL with a scheme passes it, and the fetcher gets
    what [normalizeUrl] makes of the object. *)
Example duck_typed_baseUrl_example :
  @new_AgnostClient helpers duck_url (VStr "key") None []
  = Return (mkClient (@merge_settings helpers None) 0%nat (Some 1%nat)
              None None None,
            [FetcherObj "https://duck.example"
               (<["Authorization" := VStr "key"]>
                  (<["X-Client" := VStr "agnost-js"]> ∅)) VNull;
             AuthManagerObj 0%nat (@merge_settings helpers None)]).
Proof. reflexivity. Qed.



(** [storage("main")], other accesses, then [storage("other")]: the manager
    of the first call comes back. *)
Lemma storage_name_fixed_by_first_call_example :
  let first := storage "main" new_client new_heap in
  let between :=
    accesses [Auth; Storage "third"; RealtimeAccess] first.1.2 first.2 in
  let later := storage "other" between.1.2 between.2 in
  later.1.1 = first.1.1
  /\ later.2 !! later.1.1 = Some (StorageManagerObj "main" 0%nat).
Proof.
  pose proof (@storage_name_fixed_by_first_call requests new_client new_heap
                "main" "other" [Auth; Storage "third"; RealtimeAccess] eq_refl)
    as (Hsame & Hbound & _).
  split; [exact Hsame | exact Hbound].
Defined.

End Examples.

(** ** Further examples *)

Section FurtherExamples.
Import Client Derived Samples Built.

(** Names with a slash can make two paths collide. *)
Example upload_path_collision :
  upload_path "a/bucket/b" "c" = upload_path "a" "b/bucket/c".
Proof. reflexivity. Qed.

Example valid_baseUrl_no_further_check :
  valid_baseUrl "  https://" = true /\ valid_baseUrl "HTTPS://app.io" = false.
Proof. done. Qed.

Lemma constructor_leaves_fetcher_and_auth_example :
  @new_AgnostClient helpers (VStr "https://app.example.com/env") (VStr "key")
    None [] = Return (first_client, first_heap)
  /\ default_headers (VStr "key") !! "Authorization" = Some (VStr "key").
Proof.
  split; [reflexivity |].
  destruct (@constructor_leaves_fetcher_and_auth helpers
              (VStr "https://app.example.com/env") (VStr "key") None []
              first_client first_heap eq_refl)
    as (_ & _ & Hauth & _).
  exact Hauth.
Defined.

Lemma auth_manager_predates_accesses_example :
  exists a0, authManager first_client = Some a0
             /\ first_heap !! a0 = Some (AuthManagerObj 0%nat plain_settings).
Proof.
  destruct (@auth_manager_predates_accesses helpers
              (VStr "https://app.example.com/env") (VStr "key") None []
              first_client first_heap [Auth; Storage "files"; Auth] eq_refl)
    as (a0 & Ha & Hobj & _).
  exists a0. split; [exact Ha | exact Hobj].
Defined.

Lemma managers_share_fetcher_and_settings_example :
  (accesses [RealtimeAccess; Endpoint] first_client first_heap).2 !! 0%nat
  = first_heap !! 0%nat.
Proof.
  exact (proj1 (@managers_share_fetcher_and_settings helpers
                  (VStr "https://app.example.com/env") (VStr "key") None []
                  first_client first_heap [RealtimeAccess; Endpoint]
                  eq_refl)).
Defined.

Lemma two_clients_share_no_manager_example :
  fetcher first_client <> fetcher second_client.
Proof.
  exact (proj1 (@two_clients_share_no_manager helpers
                  (VStr "https://app.example.com/env") (VStr "key")
                  (VStr "http://localhost:4000") (VStr "other") None None
                  [] first_heap second_heap first_client second_client
                  [(true, Endpoint); (false, Endpoint)] eq_refl eq_refl)).
Defined.

Lemma bucket_managers_are_fresh_example :
  exists b1 h1 b2 h2,
    bucket 2%nat "avatars" storage_heap = Some (b1, h1)
    /\ bucket 2%nat "avatars" h1 = Some (b2, h2)
    /\ b1 <> b2.
Proof.
  destruct (bucket_managers_are_fresh 2%nat storage_heap "files" 0%nat
              "avatars" "avatars" eq_refl)
    as (b1 & h1 & b2 & h2 & H1 & H2 & Hne & _).
  exists b1, h1, b2, h2. split; [exact H1 |]. split; [exact H2 | exact Hne].
Defined.

Lemma upload_refuses_what_it_cannot_send_example :
  @upload requests browser 1%nat "notes.txt" (OtherBody (VStr "some text"))
    None bucket_heap
  = Some (Throw unsupported_file_format).
Proof.
  exact (proj1 (proj2 (proj2
           (@upload_refuses_what_it_cannot_send requests browser 1%nat
              "notes.txt" (OtherBody (VStr "some text")) None bucket_heap
              "files" "avatars" 0%nat eq_refl)))
           (VStr "some text")).
Defined.

(** In a browser, with a progress callback: the upload with progress is
    used and the query does not carry the callback. *)
Lemma upload_sends_one_request_example :
  @upload requests browser 1%nat "me.png" FileBody (Some with_progress)
    bucket_heap
  = Some (Return (stored "/storage/files/bucket/avatars/upload-formdata"))
  /\ options (upload_query "me.png" (Some with_progress)) !! "onProgress"
     = Some VUndefined
  /\ options (upload_query "me.png" (Some with_progress)) !! "isPublic"
     = Some (VBool true).
Proof.
  destruct (@upload_sends_one_request requests browser 1%nat "me.png" FileBody
              (Some with_progress) bucket_heap "files" "avatars" 0%nat
              eq_refl eq_refl)
    as (Hreq & _ & Hcb & Hgiven & _).
  split; [| split].
  - rewrite Hreq. reflexivity.
  - exact Hcb.
  - apply Hgiven; done.
Defined.

Lemma upload_through_client_example :
  exists bm h',
    bucket (storage "files" first_client first_heap).1.1 "avatars"
      (storage "files" first_client first_heap).2 = Some (bm, h').
Proof.
  destruct (@upload_through_client helpers requests
              (VStr "https://app.example.com/env") (VStr "key") None []
              first_client first_heap "files" "avatars" browser "me.png"
              BlobBody None eq_refl eq_refl)
    as (bm & h' & Hb & _).
  exists bm, h'. exact Hb.
Defined.

Lemma upload_path_determines_names_example :
  "files" = "files" /\ "avatars" = "avatars".
Proof.
  apply (upload_path_determines_names "files" "avatars" "files" "avatars");
    reflexivity.
Defined.


End FurtherExamples.
